(** * tixlbase.models: versioned entities, item variations, cache invalidation

    A shallow embedding of [src/tixlbase/models.py].  Python objects are
    records, the ORM's persistent rows and the event cache are an explicit
    [World] threaded through every operation, and exceptions are values. *)

From Stdlib Require Import ZArith List Bool Ascii String OrderedTypeEx.
From stdpp Require Import gmap strings list fin_maps sorting.

Local Open Scope string_scope.
Local Open Scope list_scope.
Local Open Scope Z_scope.

(** ** Versionable: the columns every versioned row carries *)

(** [id] is the primary key ([self.pk]); it is [None] on an instance that
    was never given one.  [identity] is the logical key shared by all
    versions.  Datetimes are integers (microseconds on the UTC time line);
    [version_end_date = None] marks the current version.  [fields] holds the
    columns and relations the concrete model class declares. *)
Record Versionable (A : Type) : Type := mkVersionable {
  id : option string;
  identity : string;
  version_start_date : Z;
  version_end_date : option Z;
  version_birth_date : Z;
  fields : A
}.

Arguments mkVersionable {A}.
Arguments id {A}.
Arguments identity {A}.
Arguments version_start_date {A}.
Arguments version_end_date {A}.
Arguments version_birth_date {A}.
Arguments fields {A}.

(** Python truth value of a primary key in [if not self.pk]: [None] and the
    empty string are false, every other string is true. *)
Definition pk_truth (pk : option string) : bool :=
  match pk with
  | None => false
  | Some s => negb (String.eqb s "")
  end.

(** Python truth value of an optional datetime ([if self.version_end_date],
    [if forced_version_date]): [None] is false, a datetime is true. *)
Definition datetime_truth (d : option Z) : bool :=
  match d with
  | None => false
  | Some _ => true
  end.

(** The one exception class the module raises itself. *)
Inductive Exception : Type :=
| ValueError (msg : string).

(** Outcome of a call that may raise: the exception or the returned value. *)
Inductive Outcome (R : Type) : Type :=
| Raise (e : Exception)
| Return (r : R).

Arguments Raise {R}.
Arguments Return {R}.

Definition raised {R} (o : Outcome R) : bool :=
  match o with Raise _ => true | Return _ => false end.

Section CloneShallow.

(** The concrete model class: its columns, the state its [save] acts on
    (database and caches) and its [save] method, which [clone_shallow]
    reaches through [self]. *)
Context {A S : Type}.
Variable save : Versionable A -> S -> S.

(** [get_utc_now()] and [str(uuid.uuid4())] as read during the call. *)
Variable utc_now : Z.
Variable uuid4 : string.

(** What a call leaves behind: the outcome, the object [self] was bound to
    (it is mutated in place) and the state [save] acts on. *)
Record CloneResult : Type := mkCloneResult {
  outcome : Outcome (Versionable A);
  self_after : Versionable A;
  state_after : S
}.

Definition set_interval (v : Versionable A) (s : Z) (e : option Z) : Versionable A :=
  mkVersionable (id v) (identity v) s e (version_birth_date v) (fields v).

Definition set_id (v : Versionable A) (k : option string) : Versionable A :=
  mkVersionable k (identity v) (version_start_date v) (version_end_date v)
                (version_birth_date v) (fields v).

(** Lines 41-56: the part of [clone_shallow] after the checks, at the
    clone date [at_]. *)
Definition clone_at (self : Versionable A) (at_ : Z) (st : S) : CloneResult :=
  let earlier_version := self in
  (* later_version = copy.copy(earlier_version) *)
  let later_version := earlier_version in
  let later_version := set_interval later_version at_ None in
  let earlier_version := set_id earlier_version (Some uuid4) in
  let earlier_version :=
    set_interval earlier_version (version_start_date earlier_version) (Some at_) in
  let st := save earlier_version st in
  let st := save later_version st in
  mkCloneResult (Return later_version) earlier_version st.

Definition clone_shallow (self : Versionable A) (forced_version_date : option Z)
    (st : S) : CloneResult :=
  if negb (pk_truth (id self)) then
    mkCloneResult (Raise (ValueError "Instance must be saved before it can be cloned"))
                  self st
  else if datetime_truth (version_end_date self) then
    mkCloneResult (Raise (ValueError "This is a historical item and can not be cloned."))
                  self st
  else
    (* [if forced_version_date:] is [datetime_truth]: a match on the option *)
    match forced_version_date with
    | Some d =>
        if negb ((version_start_date self <=? d) && (d <=? utc_now)) then
          mkCloneResult
            (Raise (ValueError
               "The clone date must be between the version start date and now."))
            self st
        else clone_at self d st
    | None => clone_at self utc_now st
    end.

(** The clone date a call works with: the forced one, else now. *)
Definition clone_date (forced_version_date : option Z) : Z :=
  match forced_version_date with
  | Some d => d
  | None => utc_now
  end.

(** The three conditions under which the source raises. *)
Definition no_persisted_key (self : Versionable A) : Prop :=
  id self = None \/ id self = Some "".

Definition interval_closed (self : Versionable A) : Prop :=
  version_end_date self <> None.

Definition date_out_of_range (self : Versionable A) (forced : option Z) : Prop :=
  exists d, forced = Some d /\ ~ (version_start_date self <= d <= utc_now).

End CloneShallow.

(** ** The model classes

    A foreign key declared without [null=True] is a field of the referenced
    type; a nullable one is an [option].  A versioned foreign key column
    ([prop_id], [item_id]) holds the identity of the row it refers to.  A
    many-to-many field declared on the class is the list its manager
    returns.  Decimal columns with two places are integers in hundredths. *)

Record EventFields : Type := mkEventFields {
  Event_organizer_id : string;
  Event_name : string;
  Event_slug : string;
  Event_locale : string;
  Event_timezone : string;
  Event_currency : string;
  Event_date_from : Z;
  Event_date_to : option Z;
  Event_show_date_to : bool;
  Event_show_times : bool;
  Event_presale_end : option Z;
  Event_presale_start : option Z;
  Event_payment_term_days : N;
  Event_payment_term_last : option Z;
  Event_plugins : option string
}.

Definition Event : Type := Versionable EventFields.

Record ItemCategoryFields : Type := mkItemCategoryFields {
  ItemCategory_event : Event;
  ItemCategory_name : string;
  ItemCategory_position : Z
}.

Definition ItemCategory : Type := Versionable ItemCategoryFields.

Record PropertyFields : Type := mkPropertyFields {
  Property_event : Event;
  Property_name : string
}.

Definition Property : Type := Versionable PropertyFields.

Record PropertyValueFields : Type := mkPropertyValueFields {
  prop_id : string;
  prop : Property;
  PropertyValue_value : string;
  PropertyValue_position : Z
}.

Definition PropertyValue : Type := Versionable PropertyValueFields.

Record QuestionFields : Type := mkQuestionFields {
  Question_event : Event;
  Question_question : string;
  Question_type : string;
  Question_required : bool
}.

Definition Question : Type := Versionable QuestionFields.

Record ItemFields : Type := mkItemFields {
  Item_event : Event;
  Item_category : option ItemCategory;
  Item_name : string;
  Item_active : bool;
  Item_deleted : bool;
  Item_short_description : option string;
  Item_long_description : option string;
  Item_default_price : option Z;
  Item_tax_rate : option Z;
  Item_properties : list Property;
  Item_questions : list Question
}.

Definition Item : Type := Versionable ItemFields.

Record ItemVariationFields : Type := mkItemVariationFields {
  item_id : string;
  ItemVariation_item : Item;
  ItemVariation_values : list PropertyValue;
  ItemVariation_active : bool;
  ItemVariation_default_price : option Z
}.

Definition ItemVariation : Type := Versionable ItemVariationFields.

(** [BaseRestriction] is abstract; a plugin's restriction class adds columns
    of its own, which no method of this module reads. *)
Record BaseRestrictionFields : Type := mkBaseRestrictionFields {
  BaseRestriction_event : Event;
  BaseRestriction_item : option Item;
  BaseRestriction_variations : list ItemVariation
}.

Definition BaseRestriction : Type := Versionable BaseRestrictionFields.

(** [order_cache] and [lock_cache] relate to the unversioned
    [OrderPosition] and [CartPosition]; they are the lists of their
    integer primary keys. *)
Record QuotaFields : Type := mkQuotaFields {
  Quota_event : Event;
  Quota_name : string;
  Quota_size : N;
  Quota_items : list Item;
  Quota_variations : list ItemVariation;
  Quota_order_cache : list Z;
  Quota_lock_cache : list Z
}.

Definition Quota : Type := Versionable QuotaFields.

(** *** Order status codes (lines 882-891); [_] is the lazy translation of
    its message id, the label is that message id. *)
Definition STATUS_PENDING : string := "n".
Definition STATUS_PAID : string := "p".
Definition STATUS_EXPIRED : string := "e".
Definition STATUS_CANCELLED : string := "c".

Definition STATUS_CHOICE : list (string * string) :=
  [ (STATUS_PAID, "pending");
    (STATUS_PENDING, "paid");
    (STATUS_EXPIRED, "expired");
    (STATUS_CANCELLED, "cancelled") ].

(** ** The world the methods act on *)

(** A persisted object of one of the model classes. *)
Inductive Instance : Type :=
| IEvent (o : Event)
| IItemCategory (o : ItemCategory)
| IProperty (o : Property)
| IPropertyValue (o : PropertyValue)
| IQuestion (o : Question)
| IItem (o : Item)
| IItemVariation (o : ItemVariation)
| IRestriction (o : BaseRestriction)
| IQuota (o : Quota).

(** The side effects a method performs, in the order it performs them: a
    call of the inherited [save], a call of the inherited [delete], and a
    [clear()] on the cache of an event. *)
Inductive Effect : Type :=
| Saved (o : Instance)
| Deleted (o : Instance)
| Cleared (ev : Event).

(** [objects] are the rows of the database in storage order, [effects] the
    log of everything done so far, oldest first. *)
Record World : Type := mkWorld {
  objects : list Instance;
  effects : list Effect
}.

(** The inherited [save] and [delete] of [versions.models.Versionable]
    (Django's [Model] underneath) belong to a library: the interface says
    what they do to the rows. *)
Class Backend : Type := {
  db_save : Instance -> list Instance -> list Instance;
  db_delete : Instance -> list Instance -> list Instance
}.

(** Two objects are the same row when they are of one class and carry the
    same primary key. *)
Definition pk_eqb (a b : option string) : bool :=
  match a, b with
  | Some x, Some y => String.eqb x y
  | _, _ => false
  end.

Definition same_row (x y : Instance) : bool :=
  match x, y with
  | IEvent a, IEvent b => pk_eqb (id a) (id b)
  | IItemCategory a, IItemCategory b => pk_eqb (id a) (id b)
  | IProperty a, IProperty b => pk_eqb (id a) (id b)
  | IPropertyValue a, IPropertyValue b => pk_eqb (id a) (id b)
  | IQuestion a, IQuestion b => pk_eqb (id a) (id b)
  | IItem a, IItem b => pk_eqb (id a) (id b)
  | IItemVariation a, IItemVariation b => pk_eqb (id a) (id b)
  | IRestriction a, IRestriction b => pk_eqb (id a) (id b)
  | IQuota a, IQuota b => pk_eqb (id a) (id b)
  | _, _ => false
  end.

(** Django's [save]: update the row with this primary key where there is
    one, insert a new row otherwise; [delete] removes the row. *)
Definition upsert (x : Instance) (rows : list Instance) : list Instance :=
  if existsb (same_row x) rows
  then map (fun y => if same_row x y then x else y) rows
  else rows ++ [x].

Definition remove_row (x : Instance) (rows : list Instance) : list Instance :=
  List.filter (fun y => negb (same_row x y)) rows.

Definition django_backend : Backend :=
  {| db_save := upsert; db_delete := remove_row |}.

(** Python truth value of a model instance in [if self.event:]: a model
    class defines neither [__bool__] nor [__len__], every instance is
    true. *)
Definition instance_truth {A : Type} (o : Versionable A) : bool := true.

Section Methods.

Context `{Backend}.

(** [super().save()] and [super().delete()] where the superclass is
    [Versionable]. *)
Definition Versionable_save (o : Instance) (w : World) : World :=
  mkWorld (db_save o (objects w)) (effects w ++ [Saved o]).

Definition Versionable_delete (o : Instance) (w : World) : World :=
  mkWorld (db_delete o (objects w)) (effects w ++ [Deleted o]).

(** Modelled from the spec: [tixlbase.cache.EventRelatedCache], the handle
    [Event.get_cache()] returns, is missing.  The cache is opaque storage
    scoped by event; [clear()] on the handle of [ev] is the effect
    [Cleared ev]. *)
Definition get_cache_clear (ev : Event) (w : World) : World :=
  mkWorld (objects w) (effects w ++ [Cleared ev]).

(** Lines 338-341. *)
Definition Event_save (self : Event) (w : World) : World :=
  let w := Versionable_save (IEvent self) w in
  get_cache_clear self w.

(** Lines 421-429. *)
Definition ItemCategory_delete (self : ItemCategory) (w : World) : World :=
  let w := Versionable_delete (IItemCategory self) w in
  if instance_truth (ItemCategory_event (fields self))
  then get_cache_clear (ItemCategory_event (fields self)) w else w.

Definition ItemCategory_save (self : ItemCategory) (w : World) : World :=
  let w := Versionable_save (IItemCategory self) w in
  if instance_truth (ItemCategory_event (fields self))
  then get_cache_clear (ItemCategory_event (fields self)) w else w.

(** Lines 454-462. *)
Definition Property_delete (self : Property) (w : World) : World :=
  let w := Versionable_delete (IProperty self) w in
  if instance_truth (Property_event (fields self))
  then get_cache_clear (Property_event (fields self)) w else w.

Definition Property_save (self : Property) (w : World) : World :=
  let w := Versionable_save (IProperty self) w in
  if instance_truth (Property_event (fields self))
  then get_cache_clear (Property_event (fields self)) w else w.

(** Lines 492-500. *)
Definition PropertyValue_delete (self : PropertyValue) (w : World) : World :=
  let w := Versionable_delete (IPropertyValue self) w in
  if instance_truth (prop (fields self))
  then get_cache_clear (Property_event (fields (prop (fields self)))) w else w.

Definition PropertyValue_save (self : PropertyValue) (w : World) : World :=
  let w := Versionable_save (IPropertyValue self) w in
  if instance_truth (prop (fields self))
  then get_cache_clear (Property_event (fields (prop (fields self)))) w else w.

(** Lines 543-551. *)
Definition Question_delete (self : Question) (w : World) : World :=
  let w := Versionable_delete (IQuestion self) w in
  if instance_truth (Question_event (fields self))
  then get_cache_clear (Question_event (fields self)) w else w.

Definition Question_save (self : Question) (w : World) : World :=
  let w := Versionable_save (IQuestion self) w in
  if instance_truth (Question_event (fields self))
  then get_cache_clear (Question_event (fields self)) w else w.

(** Lines 732-740. *)
Definition ItemVariation_delete (self : ItemVariation) (w : World) : World :=
  let w := Versionable_delete (IItemVariation self) w in
  if instance_truth (ItemVariation_item (fields self))
  then get_cache_clear (Item_event (fields (ItemVariation_item (fields self)))) w else w.

Definition ItemVariation_save (self : ItemVariation) (w : World) : World :=
  let w := Versionable_save (IItemVariation self) w in
  if instance_truth (ItemVariation_item (fields self))
  then get_cache_clear (Item_event (fields (ItemVariation_item (fields self)))) w else w.

(** Lines 799-807. *)
Definition BaseRestriction_delete (self : BaseRestriction) (w : World) : World :=
  let w := Versionable_delete (IRestriction self) w in
  if instance_truth (BaseRestriction_event (fields self))
  then get_cache_clear (BaseRestriction_event (fields self)) w else w.

Definition BaseRestriction_save (self : BaseRestriction) (w : World) : World :=
  let w := Versionable_save (IRestriction self) w in
  if instance_truth (BaseRestriction_event (fields self))
  then get_cache_clear (BaseRestriction_event (fields self)) w else w.

(** Lines 810-868: [Quota] overrides neither method, both are the
    inherited ones. *)
Definition Quota_delete (self : Quota) (w : World) : World :=
  Versionable_delete (IQuota self) w.

Definition Quota_save (self : Quota) (w : World) : World :=
  Versionable_save (IQuota self) w.

End Methods.

(** ** Item and its variations *)

(** The two kinds of value a [VariationDict] holds: a [PropertyValue] under
    the identity of its property, an [ItemVariation] under the key
    ['variation']. *)
Inductive DictValue : Type :=
| DValue (v : PropertyValue)
| DVariation (var : ItemVariation).

(** [tixlbase.types.VariationDict] differs from [dict] "only by specifying
    some extra methods" (docstring, lines 656-657): a finite map with
    string keys. *)
Abbreviation VariationDict := (gmap string DictValue).

(** An [Item] object in memory: the model's columns and the attribute
    [_get_all_variations_cache], present ([Some]) once line 687 set it. *)
Record ItemInstance : Type := mkItemInstance {
  row : Item;
  _get_all_variations_cache : option (list VariationDict)
}.

(** Order of Python tuples of two strings: by the first component, then by
    the second; strings compare character by character. *)
Definition pair_leb (a b : string * string) : bool :=
  match String.compare a.1 b.1 with
  | Lt => true
  | Gt => false
  | Eq => String.leb a.2 b.2
  end.

Definition pair_le (a b : string * string) : Prop := Is_true (pair_leb a b).

#[global] Instance pair_le_dec : RelDecision pair_le :=
  fun a b => Is_true_dec (pair_leb a b).

Definition position_le (a b : PropertyValue) : Prop :=
  PropertyValue_position (fields a) <= PropertyValue_position (fields b).

#[global] Instance position_le_dec : RelDecision position_le :=
  fun a b => Z_le_dec (PropertyValue_position (fields a))
                      (PropertyValue_position (fields b)).

(** [sorted(key)] of line 669 and 682. *)
Definition sorted (key : list (string * string)) : list (string * string) :=
  merge_sort pair_le key.

(** [class Meta: ordering = ("position",)] of [PropertyValue]: every query
    for values returns them by ascending position. *)
Definition by_position (vs : list PropertyValue) : list PropertyValue :=
  merge_sort position_le vs.

(** [itertools.product] of the iterables it is given: the last iterable
    varies fastest, no iterable at all gives the one empty tuple. *)
Fixpoint product {A : Type} (iterables : list (list A)) : list (list A) :=
  match iterables with
  | [] => [[]]
  | l :: rest => flat_map (fun x => map (cons x) (product rest)) l
  end.

(** [self.variations.all()]: the reverse side of [ItemVariation.item], the
    rows whose foreign key column names this item. *)
Definition Item_variations_all (w : World) (self : Item) : list ItemVariation :=
  omap (fun o => match o with
                 | IItemVariation var =>
                     if String.eqb (item_id (fields var)) (identity self)
                     then Some var else None
                 | _ => None
                 end) (objects w).

(** [prop.values.all()]: the reverse side of [PropertyValue.prop]. *)
Definition Property_values_all (w : World) (p : Property) : list PropertyValue :=
  by_position
    (omap (fun o => match o with
                    | IPropertyValue v =>
                        if String.eqb (prop_id (fields v)) (identity p)
                        then Some v else None
                    | _ => None
                    end) (objects w)).

(** [var.values.all()] and [self.properties.all()]: many-to-many fields of
    the object itself. *)
Definition ItemVariation_values_all (var : ItemVariation) : list PropertyValue :=
  by_position (ItemVariation_values (fields var)).

Definition Item_properties_all (self : Item) : list Property :=
  Item_properties (fields self).

(** Lines 666-669: the key an [ItemVariation] is indexed under. *)
Definition variation_key (var : ItemVariation) : list (string * string) :=
  let key :=
    fold_left (fun key v => key ++ [(prop_id (fields v), identity v)])
              (ItemVariation_values_all var) [] in
  sorted key.

(** Lines 664-670. *)
Definition build_variations_cache (all_variations : list ItemVariation)
    : gmap (list (string * string)) ItemVariation :=
  fold_left (fun variations_cache var => <[variation_key var := var]> variations_cache)
            all_variations ∅.

(** Lines 677-681: the key and the dictionary built from one combination. *)
Definition comb_pairs (comb : list PropertyValue)
    : list (string * string) * VariationDict :=
  fold_left (fun '(key, var) v =>
               (key ++ [(identity (prop (fields v)), identity v)],
                <[identity (prop (fields v)) := DValue v]> var))
            comb ([], ∅).

(** Lines 674-685: the body of the loop over the combinations.  Each pass
    appends one dictionary to [result]: the empty one for the empty
    combination, else the one built from the combination, with the
    override under ['variation'] when the key is in the index. *)
Definition binding (variations_cache : gmap (list (string * string)) ItemVariation)
    (comb : list PropertyValue) : VariationDict :=
  if (length comb =? 0)%nat then ∅
  else
    let '(key, var) := comb_pairs comb in
    let key := sorted key in
    match variations_cache !! key with
    | Some override => <["variation" := DVariation override]> var
    | None => var
    end.

(** Lines 662-685: the computation behind [get_all_variations]. *)
Definition compute_all_variations (w : World) (self : Item) : list VariationDict :=
  let all_variations := Item_variations_all w self in
  let all_properties := Item_properties_all self in
  let variations_cache := build_variations_cache all_variations in
  fold_left (fun result comb => result ++ [binding variations_cache comb])
            (product (map (Property_values_all w) all_properties)) [].

(** Lines 648-688.  Returns the list and the object with its attribute. *)
Definition get_all_variations (w : World) (self : ItemInstance) (use_cache : bool)
    : list VariationDict * ItemInstance :=
  match use_cache, _get_all_variations_cache self with
  | true, Some cached => (cached, self)
  | _, _ =>
      let result := compute_all_variations w (row self) in
      (result, mkItemInstance (row self) (Some result))
  end.

Definition set_deleted_inactive (it : Item) : Item :=
  let f := fields it in
  mkVersionable (id it) (identity it) (version_start_date it) (version_end_date it)
    (version_birth_date it)
    (mkItemFields (Item_event f) (Item_category f) (Item_name f)
       false (* active *) true (* deleted *)
       (Item_short_description f) (Item_long_description f)
       (Item_default_price f) (Item_tax_rate f)
       (Item_properties f) (Item_questions f)).

Section ItemMethods.

Context `{Backend}.

(** Lines 636-639. *)
Definition Item_save (self : ItemInstance) (w : World) : World :=
  let w := Versionable_save (IItem (row self)) w in
  if instance_truth (Item_event (fields (row self)))
  then get_cache_clear (Item_event (fields (row self))) w else w.

(** Lines 641-646.  [super().save()] is the inherited [save], not
    [Item.save]. *)
Definition Item_delete (self : ItemInstance) (w : World) : ItemInstance * World :=
  let self := mkItemInstance (set_deleted_inactive (row self))
                             (_get_all_variations_cache self) in
  let w := Versionable_save (IItem (row self)) w in
  let w := if instance_truth (Item_event (fields (row self)))
           then get_cache_clear (Item_event (fields (row self))) w else w in
  (self, w).

End ItemMethods.

(** ** Vocabulary of the properties *)

(** The signature of a collection of property values: the sorted pairs of
    property identity and value identity. *)
Definition signature (vs : list PropertyValue) : list (string * string) :=
  sorted (map (fun v => (identity (prop (fields v)), identity v)) vs).

(** The override attached to a binding, if any. *)
Definition override (d : VariationDict) : option ItemVariation :=
  match d !! "variation" with
  | Some (DVariation var) => Some var
  | _ => None
  end.

(** The combinations [get_all_variations] iterates over; the binding at an
    index of the result is built from the combination at that index. *)
Definition combinations (w : World) (self : Item) : list (list PropertyValue) :=
  product (map (Property_values_all w) (Item_properties_all self)).

(** A versioned foreign key column holds the identity of the object the
    field resolves to. *)
Definition prop_fk_ok (v : PropertyValue) : Prop :=
  prop_id (fields v) = identity (prop (fields v)).

(** The binding built from [comb] carries an override exactly when a
    variation of the item has the signature of [comb]. *)
Definition override_iff_match (w : World) (self : Item)
    (comb : list PropertyValue) (d : VariationDict) : Prop :=
  is_Some (override d) <->
  exists var, var ∈ Item_variations_all w self /\
              signature (ItemVariation_values_all var) = signature comb.

(** The first claim as it is written: at every index of the result. *)
Definition override_iff_match_everywhere (w : World) (self : Item) : Prop :=
  forall (i : nat) comb d,
    combinations w self !! i = Some comb ->
    compute_all_variations w self !! i = Some d ->
    override_iff_match w self comb d.

(** The third claim as it is written: after [var.save()], a call with
    [use_cache=True] returns what a computation on the new rows returns. *)
Definition cached_call_reflects_save (w : World) (self : ItemInstance)
    (var : ItemVariation) : Prop :=
  let w' := @ItemVariation_save django_backend var w in
  (get_all_variations w' self true).1 = compute_all_variations w' (row self).

(** A binding of two properties: [d] assigns [v1] to the property [k1] and
    [v2] to the property [k2], and has no key besides these two and
    ['variation']. *)
Definition binds2 (d : VariationDict) (k1 : string) (v1 : PropertyValue)
    (k2 : string) (v2 : PropertyValue) : Prop :=
  d !! k1 = Some (DValue v1) /\ d !! k2 = Some (DValue v2) /\
  forall k, is_Some (d !! k) -> k = k1 \/ k = k2 \/ k = "variation".

(** The last effect of a method: the last entry of the log. *)
Definition last_effect (w : World) : option Effect := last (effects w).

(** ** Concrete objects *)

Definition event1 : Event :=
  mkVersionable (Some "event-1") "event-1" 0 None 0
    (mkEventFields "organizer-1" "Conference" "conf" "en" "UTC" "EUR"
                   1000 None true true None None 14%N None None).

Definition mkProperty (k name : string) : Property :=
  mkVersionable (Some k) k 0 None 0 (mkPropertyFields event1 name).

Definition mkPropertyValue (k : string) (p : Property) (val : string) (pos : Z)
    : PropertyValue :=
  mkVersionable (Some k) k 0 None 0 (mkPropertyValueFields (identity p) p val pos).

Definition mkItem (k name : string) (props : list Property) : Item :=
  mkVersionable (Some k) k 0 None 0
    (mkItemFields event1 None name true false None None (Some 2500) (Some 1900)
                  props []).

Definition mkItemVariation (k : string) (it : Item) (vs : list PropertyValue)
    (act : bool) : ItemVariation :=
  mkVersionable (Some k) k 0 None 0
    (mkItemVariationFields (identity it) it vs act None).

Definition P1 : Property := mkProperty "prop-1" "Size".
Definition P2 : Property := mkProperty "prop-2" "Colour".
Definition val_a : PropertyValue := mkPropertyValue "value-a" P1 "S" 0.
Definition val_b : PropertyValue := mkPropertyValue "value-b" P1 "M" 1.
Definition val_x : PropertyValue := mkPropertyValue "value-x" P2 "red" 0.
Definition val_y : PropertyValue := mkPropertyValue "value-y" P2 "blue" 1.

(** A shirt in two sizes and two colours, with an override for (b, x). *)
Definition shirt : Item := mkItem "item-shirt" "T-Shirt" [P1; P2].
Definition var_bx : ItemVariation := mkItemVariation "var-bx" shirt [val_x; val_b] true.

(** The rows are stored in no particular order. *)
Definition shirt_world : World :=
  mkWorld [IPropertyValue val_y; IPropertyValue val_b; IItemVariation var_bx;
           IPropertyValue val_x; IPropertyValue val_a; IItem shirt] [].

(** An item without properties, and a variation of it with no values. *)
Definition ticket : Item := mkItem "item-ticket" "Ticket" [].
Definition var_plain : ItemVariation := mkItemVariation "var-plain" ticket [] true.
Definition ticket_world : World := mkWorld [IItem ticket; IItemVariation var_plain] [].

(** The override of the shirt switched off, to be saved again. *)
Definition var_bx_inactive : ItemVariation :=
  mkItemVariation "var-bx" shirt [val_x; val_b] false.

(** The shirt object after a first call of [get_all_variations]. *)
Definition shirt_after_call : ItemInstance :=
  (get_all_variations shirt_world (mkItemInstance shirt None) true).2.

Definition quota1 : Quota :=
  mkVersionable (Some "quota-1") "quota-1" 0 None 0
    (mkQuotaFields event1 "Hall" 1%N [ticket] [] [] []).

(** ** User and UserManager (lines 59-187) *)

(** The exceptions a call on a user can end in: the two Python raises
    itself on a wrong operand, and the plain [Exception] of line 73. *)
Inductive UserError : Type :=
| AttributeError (msg : string)
| TypeError (msg : string)
| PlainException (msg : string).

(** The columns of [User], those of [AbstractBaseUser] and
    [PermissionsMixin] among them.  The primary key is Django's automatic
    integer; a nullable column is an [option]. *)
Record User : Type := mkUser {
  User_pk : option Z;
  User_password : string;
  User_last_login : option Z;
  User_is_superuser : bool;
  User_identifier : option string;
  User_username : option string;
  User_event : option Event;
  User_email : option string;
  User_givenname : option string;
  User_familyname : option string;
  User_is_active : bool;
  User_is_staff : bool;
  User_date_joined : option Z;
  User_locale : string;
  User_timezone : string
}.

(** Python truth value of a string that may be [None], and of an integer
    that may be [None]. *)
Definition str_truth (s : option string) : bool :=
  match s with
  | None => false
  | Some s => negb (String.eqb s "")
  end.

Definition int_truth (n : option Z) : bool :=
  match n with
  | None => false
  | Some n => negb (n =? 0)
  end.

(** Lines 168-174. *)
Definition User_get_short_name (self : User) : option string :=
  if str_truth (User_givenname self) then User_givenname self
  else if str_truth (User_familyname self) then User_familyname self
  else User_username self.

(** Lines 176-187; the format of line 182 is the family name, a comma and
    a blank, and the given name. *)
Definition User_get_full_name (self : User) : option string :=
  if str_truth (User_givenname self) && negb (str_truth (User_familyname self))
  then User_givenname self
  else if negb (str_truth (User_givenname self)) && str_truth (User_familyname self)
  then User_familyname self
  else if str_truth (User_familyname self) && str_truth (User_givenname self)
  then match User_familyname self, User_givenname self with
       | Some family, Some given =>
           Some (String.append family (String.append ", " given))
       | _, _ => None
       end
  else User_username self.

Definition set_identifier (u : User) (i : option string) : User :=
  mkUser (User_pk u) (User_password u) (User_last_login u) (User_is_superuser u)
         i (User_username u) (User_event u) (User_email u) (User_givenname u)
         (User_familyname u) (User_is_active u) (User_is_staff u)
         (User_date_joined u) (User_locale u) (User_timezone u).

Definition set_password_hash (u : User) (h : string) : User :=
  mkUser (User_pk u) h (User_last_login u) (User_is_superuser u)
         (User_identifier u) (User_username u) (User_event u) (User_email u)
         (User_givenname u) (User_familyname u) (User_is_active u) (User_is_staff u)
         (User_date_joined u) (User_locale u) (User_timezone u).


(** ["%s@%d.event.tixl" % (name, event_id)] of line 163.  [event_id] is the
    primary key of an [Event], a UUID string or [None]; the conversion [%d]
    takes a number and raises on both. *)
Definition local_identifier (name : string) (event_id : option string)
    : UserError + string :=
  inl (TypeError "%d format: a number is required").

Section UserMethods.

(** What the module takes from outside: [str.lower], the inherited
    [save] of Django's [Model] on the state it keeps (it returns the object
    as the database left it, with its primary key), Django's password
    hashing, and two settings. *)
Context {S : Type}.
Variable lower : string -> string.
Variable Model_save : User -> S -> User * S.
Variable make_password : option string -> string.
Variable LANGUAGE_CODE : string.
Variable TIME_ZONE : string.

(** Lines 159-163: the identifier the object has when line 164 is reached,
    or the exception raised before. *)
Definition fill_identifier (self : User) : UserError + string :=
  match User_identifier self with
  | Some i => inr i
  | None =>
      match User_event self with
      | None =>
          match User_email self with
          | Some e => inr (lower e)
          | None => inl (AttributeError "'NoneType' object has no attribute 'lower'")
          end
      | Some ev =>
          match User_username self with
          | Some u => local_identifier (lower u) (id ev)
          | None => inl (AttributeError "'NoneType' object has no attribute 'lower'")
          end
      end
  end.

(** Lines 158-166.  Returns the exception if one was raised, the object
    as the call left it and the state. *)
Definition User_save (self : User) (db : S) : option UserError * User * S :=
  match fill_identifier self with
  | inl e => (Some e, self, db)
  | inr i =>
      let i := if negb (int_truth (User_pk self)) then lower i else i in
      let self := set_identifier self (Some i) in
      let '(self, db) := Model_save self db in
      (None, self, db)
  end.

(** [self.model(identifier=..., username=...)]: a new object with the
    columns' defaults. *)
Definition new_user (identifier username : option string) : User :=
  mkUser None "" None false identifier username None None None None
         true false None LANGUAGE_CODE TIME_ZONE.

(** Lines 65-69.  [username] is accepted and not used. *)
Definition create_user (identifier username password : option string) (db : S)
    : (UserError + User) * S :=
  let user := new_user identifier None in
  let user := set_password_hash user (make_password password) in
  match User_save user db with
  | (Some e, _, db) => (inl e, db)
  | (None, user, db) => (inr user, db)
  end.


End UserMethods.

(** ** Event.get_plugins (lines 343-346) *)

(** [s.split(sep)] for a separator of one character: the pieces between
    the separators, one more than there are separators. *)
Fixpoint split_on (sep : ascii) (s : string) : list string :=
  match s with
  | EmptyString => [EmptyString]
  | String c rest =>
      if Ascii.eqb c sep then EmptyString :: split_on sep rest
      else match split_on sep rest with
           | [] => [String c EmptyString]
           | piece :: pieces => String c piece :: pieces
           end
  end.

Definition Event_get_plugins (self : Event) : list string :=
  match Event_plugins (fields self) with
  | None => []
  | Some plugins => split_on ","%char plugins
  end.

(** [",".join(names)]. *)
Definition comma_join (names : list string) : string := String.concat "," names.

(** Whether a string holds the character. *)
Fixpoint has_char (c : ascii) (s : string) : bool :=
  match s with
  | EmptyString => false
  | String c' rest => Ascii.eqb c' c || has_char c rest
  end.

(** ** Migration 0079: set_full_invoice_no (lines 10-14) *)

(** A row of the invoice table after the [AddField] of lines 24-29: the
    three columns the migration names and the remaining ones, which it
    does not touch. *)
Record Invoice (A : Type) : Type := mkInvoice {
  Invoice_prefix : string;
  Invoice_invoice_no : string;
  Invoice_full_invoice_no : string;
  Invoice_rest : A
}.

Arguments mkInvoice {A}.
Arguments Invoice_prefix {A}.
Arguments Invoice_invoice_no {A}.
Arguments Invoice_full_invoice_no {A}.
Arguments Invoice_rest {A}.

(** [Invoice.objects.all().update(full_invoice_no=Concat(F('prefix'),
    F('invoice_no')))]: every row, the column from the row's own values. *)
Definition set_full_invoice_no {A : Type} (rows : list (Invoice A)) : list (Invoice A) :=
  map (fun r => mkInvoice (Invoice_prefix r) (Invoice_invoice_no r)
                          (String.append (Invoice_prefix r) (Invoice_invoice_no r))
                          (Invoice_rest r))
      rows.

(** ASCII lower case, an instance of [str.lower] on ASCII strings. *)
Definition ascii_lower (c : ascii) : ascii :=
  let n := nat_of_ascii c in
  if ((65 <=? n)%nat && (n <=? 90)%nat)%bool then ascii_of_nat (n + 32) else c.

Fixpoint lower_ascii (s : string) : string :=
  match s with
  | EmptyString => EmptyString
  | String c rest => String (ascii_lower c) (lower_ascii rest)
  end.

(** Django's [save] of a user on the list of user rows: a new object gets
    the next key and is appended, a keyed one replaces its row. *)
Definition users_save (u : User) (rows : list User) : User * list User :=
  match User_pk u with
  | Some k =>
      (u, if existsb (fun r => match User_pk r with Some k' => k' =? k | None => false end) rows
          then map (fun r => match User_pk r with
                             | Some k' => if k' =? k then u else r
                             | None => r
                             end) rows
          else rows ++ [u])
  | None =>
      let k := 1 + fold_right (fun r m => match User_pk r with
                                          | Some k' => Z.max k' m
                                          | None => m
                                          end) 0 rows in
      let u' := mkUser (Some k) (User_password u) (User_last_login u)
                  (User_is_superuser u) (User_identifier u) (User_username u)
                  (User_event u) (User_email u) (User_givenname u) (User_familyname u)
                  (User_is_active u) (User_is_staff u) (User_date_joined u)
                  (User_locale u) (User_timezone u) in
      (u', rows ++ [u'])
  end.

(** ** Further concrete objects *)

(** A stored user whose identifier has capitals, and a new one that has
    only an e-mail address. *)
Definition alice : User :=
  mkUser (Some 7) "hash" None false (Some "Alice@Example.org") (Some "alice") None
         (Some "new@example.org") None None true false None "en" "UTC".

Definition bob : User :=
  mkUser None "" None false None None None (Some "Bob@Example.org") None None
         true false None "en" "UTC".

(** An event with the given plugins column. *)
Definition event_with_plugins (plugins : option string) : Event :=
  mkVersionable (Some "event-2") "event-2" 0 None 0
    (mkEventFields "organizer-1" "Fair" "fair" "en" "UTC" "EUR"
                   1000 None true true None None 14%N None plugins).

(** A second override for (b, x), stored after the first, and a world that
    holds both. *)
Definition var_bx_late : ItemVariation :=
  mkItemVariation "var-bx-late" shirt [val_b; val_x] false.

Definition shirt_world_two : World :=
  mkWorld [IPropertyValue val_y; IPropertyValue val_b; IItemVariation var_bx;
           IPropertyValue val_x; IPropertyValue val_a; IItem shirt;
           IItemVariation var_bx_late] [].

(** * Properties *)

(** ** Order status labels *)

(** C4: in [Order.STATUS_CHOICE] the code [STATUS_PAID] ("p") is paired
    with the label "pending" and the code [STATUS_PENDING] ("n") with the
    label "paid"; the two remaining codes carry their own names. *)
Theorem STATUS_CHOICE_labels_swapped :
  STATUS_PAID = "p" /\ STATUS_PENDING = "n" /\
  STATUS_CHOICE !! 0%nat = Some (STATUS_PAID, "pending") /\
  STATUS_CHOICE !! 1%nat = Some (STATUS_PENDING, "paid") /\
  (forall l, (STATUS_PAID, l) ∈ STATUS_CHOICE -> l = "pending") /\
  (forall l, (STATUS_PENDING, l) ∈ STATUS_CHOICE -> l = "paid").
Proof.
  repeat split; try reflexivity.
  - intros l Hin. unfold STATUS_CHOICE in Hin.
    repeat (apply elem_of_cons in Hin as [Heq | Hin]; [inversion Heq; reflexivity || discriminate |]).
    inversion Hin.
  - intros l Hin. unfold STATUS_CHOICE in Hin.
    repeat (apply elem_of_cons in Hin as [Heq | Hin]; [inversion Heq; reflexivity || discriminate |]).
    inversion Hin.
Qed.

(** ** clone_shallow *)

Section CloneProperties.

Context {A S : Type}.
Variable save : Versionable A -> S -> S.
Variable utc_now : Z.
Variable uuid4 : string.

Lemma pk_truth_false (pk : option string) :
  pk_truth pk = false <-> pk = None \/ pk = Some "".
Proof.
  destruct pk as [s|]; simpl.
  - rewrite negb_false_iff, String.eqb_eq. split.
    + intros ->. now right.
    + intros [Hn | Hs]; [discriminate | now inversion Hs].
  - split; [now left | reflexivity].
Qed.

Lemma datetime_truth_true (d : option Z) :
  datetime_truth d = true <-> d <> None.
Proof. destruct d; simpl; split; congruence. Qed.

Lemma in_range_false (s d : Z) :
  negb ((s <=? d) && (d <=? utc_now)) = true <-> ~ (s <= d <= utc_now).
Proof.
  rewrite negb_true_iff, andb_false_iff, !Z.leb_gt. lia.
Qed.

Lemma clone_at_returns (self : Versionable A) (d : Z) (st : S) :
  raised (outcome (clone_at save uuid4 self d st)) = false.
Proof. reflexivity. Qed.

(** C5: [clone_shallow] raises exactly when the object has no primary
    key, or its version interval is closed, or a clone date was passed
    that is not between the version start date and now; when it raises,
    the object and the stored state are as before the call. *)
Theorem clone_shallow_raises_iff (self : Versionable A)
    (forced_version_date : option Z) (st : S) :
  let r := clone_shallow save utc_now uuid4 self forced_version_date st in
  (raised (outcome r) = true <->
     no_persisted_key self \/ interval_closed self \/
     date_out_of_range utc_now self forced_version_date) /\
  (raised (outcome r) = true -> self_after r = self /\ state_after r = st).
Proof.
  cbv zeta. unfold clone_shallow, no_persisted_key, interval_closed, date_out_of_range.
  destruct (pk_truth (id self)) eqn:Hpk; simpl.
  2:{ split; [| now intros _]. split; [intros _ | reflexivity].
      left. now apply pk_truth_false. }
  assert (Hkey : ~ (id self = None \/ id self = Some "")).
  { rewrite <- pk_truth_false. congruence. }
  destruct (datetime_truth (version_end_date self)) eqn:Hend; simpl.
  { split; [| now intros _]. split; [intros _ | reflexivity].
    right; left. now apply datetime_truth_true. }
  assert (Hopen : ~ version_end_date self <> None).
  { rewrite <- datetime_truth_true. congruence. }
  destruct forced_version_date as [d|].
  - destruct (negb ((version_start_date self <=? d) && (d <=? utc_now))) eqn:Hr; simpl.
    + split; [| now intros _]. split; [intros _ | reflexivity].
      right; right. exists d. split; [reflexivity | now apply in_range_false].
    + split; [| discriminate]. split; [discriminate |].
      intros [Hk | [Hc | (d' & Hd & Hout)]]; [tauto | tauto |].
      inversion Hd; subst d'. apply in_range_false in Hout. congruence.
  - simpl. split; [| discriminate]. split; [discriminate |].
    intros [Hk | [Hc | (d' & Hd & _)]]; [tauto | tauto | discriminate].
Qed.

(** C6: when [clone_shallow] returns, at the clone date (the forced date,
    else now): the object it was called on is the historical row, closed
    at the clone date and keyed by the new UUID, otherwise as it was; the
    returned row has the same field values, identity and primary key as
    the original, starts at the clone date and is open; and both were
    saved, the historical row first. *)
Theorem clone_shallow_success (self later : Versionable A)
    (forced_version_date : option Z) (st : S) :
  let r := clone_shallow save utc_now uuid4 self forced_version_date st in
  let at_ := clone_date utc_now forced_version_date in
  outcome r = Return later ->
  (version_end_date (self_after r) = Some at_ /\
   id (self_after r) = Some uuid4 /\
   version_start_date (self_after r) = version_start_date self /\
   identity (self_after r) = identity self /\
   version_birth_date (self_after r) = version_birth_date self /\
   fields (self_after r) = fields self) /\
  (fields later = fields self /\
   identity later = identity self /\
   version_birth_date later = version_birth_date self /\
   id later = id self /\
   version_start_date later = at_ /\
   version_end_date later = None) /\
  state_after r = save later (save (self_after r) st).
Proof.
  cbv zeta. unfold clone_shallow, clone_date.
  destruct (negb (pk_truth (id self))); [discriminate |].
  destruct (datetime_truth (version_end_date self)); [discriminate |].
  destruct forced_version_date as [d|].
  - destruct (negb ((version_start_date self <=? d) && (d <=? utc_now)));
      [discriminate |].
    simpl. intros Hr. inversion Hr; subst later. simpl. tauto.
  - simpl. intros Hr. inversion Hr; subst later. simpl. tauto.
Qed.

(** A call that meets none of the three conditions returns. *)
Lemma clone_shallow_returns (self : Versionable A)
    (forced_version_date : option Z) (st : S) :
  pk_truth (id self) = true ->
  version_end_date self = None ->
  version_start_date self <= clone_date utc_now forced_version_date <= utc_now ->
  exists later,
    outcome (clone_shallow save utc_now uuid4 self forced_version_date st)
    = Return later.
Proof.
  intros Hpk Hend Hrange. unfold clone_shallow. rewrite Hpk, Hend. simpl.
  destruct forced_version_date as [d|]; simpl in *.
  - destruct (negb ((version_start_date self <=? d) && (d <=? utc_now))) eqn:Hr.
    + apply in_range_false in Hr. tauto.
    + eexists. reflexivity.
  - eexists. reflexivity.
Qed.

End CloneProperties.

(** The shirt cloned at date 5, read at date 10, through [Item.save]. *)
Lemma clone_shallow_success_witness :
  let save := fun v w => @Item_save django_backend (mkItemInstance v None) w in
  let r := clone_shallow save 10 "uuid-2" shirt (Some 5) shirt_world in
  exists later,
    outcome r = Return later /\
    id later = Some "item-shirt" /\ version_start_date later = 5 /\
    version_end_date later = None /\
    id (self_after r) = Some "uuid-2" /\ version_end_date (self_after r) = Some 5 /\
    state_after r = save later (save (self_after r) shirt_world).
Proof.
  cbv zeta.
  pose proof (clone_shallow_success
                (fun v w => @Item_save django_backend (mkItemInstance v None) w)
                10 "uuid-2" shirt
                (mkVersionable (Some "item-shirt") "item-shirt" 5 None 0 (fields shirt))
                (Some 5) shirt_world eq_refl) as (Hold & Hnew & Hst).
  eexists. split; [reflexivity |].
  destruct Hold as (He & Hid & _). destruct Hnew as (_ & _ & _ & Hk & Hs & Hn).
  repeat split; assumption.
Defined.

(** ** Cache invalidation on save and delete *)

Lemma last_effect_snoc (objs : list Instance) (log : list Effect) (e : Effect) :
  last_effect (mkWorld objs (log ++ [e])) = Some e.
Proof. unfold last_effect. simpl. apply last_snoc. Qed.

Ltac clears_last :=
  intros; unfold last_effect; cbn -[last app];
  rewrite ?app_assoc; apply last_snoc.

Section Invalidation.

Context `{Backend}.

(** The classes that override [save] and [delete] end both with the
    [clear()] of the owning event's cache. *)
Lemma ItemCategory_clears_last (self : ItemCategory) (w : World) :
  last_effect (ItemCategory_save self w) = Some (Cleared (ItemCategory_event (fields self))) /\
  last_effect (ItemCategory_delete self w) = Some (Cleared (ItemCategory_event (fields self))).
Proof. split; clears_last. Qed.

Lemma Property_clears_last (self : Property) (w : World) :
  last_effect (Property_save self w) = Some (Cleared (Property_event (fields self))) /\
  last_effect (Property_delete self w) = Some (Cleared (Property_event (fields self))).
Proof. split; clears_last. Qed.

Lemma PropertyValue_clears_last (self : PropertyValue) (w : World) :
  let ev := Property_event (fields (prop (fields self))) in
  last_effect (PropertyValue_save self w) = Some (Cleared ev) /\
  last_effect (PropertyValue_delete self w) = Some (Cleared ev).
Proof. split; clears_last. Qed.

Lemma Question_clears_last (self : Question) (w : World) :
  last_effect (Question_save self w) = Some (Cleared (Question_event (fields self))) /\
  last_effect (Question_delete self w) = Some (Cleared (Question_event (fields self))).
Proof. split; clears_last. Qed.

Lemma Item_clears_last (self : ItemInstance) (w : World) :
  let ev := Item_event (fields (row self)) in
  last_effect (Item_save self w) = Some (Cleared ev) /\
  last_effect (Item_delete self w).2 = Some (Cleared ev).
Proof. split; clears_last. Qed.

Lemma ItemVariation_clears_last (self : ItemVariation) (w : World) :
  let ev := Item_event (fields (ItemVariation_item (fields self))) in
  last_effect (ItemVariation_save self w) = Some (Cleared ev) /\
  last_effect (ItemVariation_delete self w) = Some (Cleared ev).
Proof. split; clears_last. Qed.

Lemma BaseRestriction_clears_last (self : BaseRestriction) (w : World) :
  last_effect (BaseRestriction_save self w) = Some (Cleared (BaseRestriction_event (fields self))) /\
  last_effect (BaseRestriction_delete self w) = Some (Cleared (BaseRestriction_event (fields self))).
Proof. split; clears_last. Qed.

(** C2, where the code departs from it: [Quota.save] and [Quota.delete]
    are the inherited methods; each performs the one database effect and
    no [clear()], so its last effect is not a [clear()] on the event's
    cache. *)
Theorem Quota_save_delete_never_clear (self : Quota) (w : World) :
  effects (Quota_save self w) = effects w ++ [Saved (IQuota self)] /\
  effects (Quota_delete self w) = effects w ++ [Deleted (IQuota self)] /\
  last_effect (Quota_save self w) <> Some (Cleared (Quota_event (fields self))) /\
  last_effect (Quota_delete self w) <> Some (Cleared (Quota_event (fields self))).
Proof.
  repeat split.
  - unfold Quota_save, Versionable_save. rewrite last_effect_snoc. discriminate.
  - unfold Quota_delete, Versionable_delete. rewrite last_effect_snoc. discriminate.
Qed.

(** C9: [Item.delete] sets [deleted] and clears [active], leaves every
    other column and the object's attribute as they were, hands the
    object to the inherited [save] and to nothing that deletes, and then
    clears the cache of the item's event, once. *)
Theorem Item_delete_soft (self : ItemInstance) (w : World) :
  let self' := (Item_delete self w).1 in
  let w' := (Item_delete self w).2 in
  let f := fields (row self) in
  let f' := fields (row self') in
  (Item_deleted f' = true /\ Item_active f' = false) /\
  (Item_event f' = Item_event f /\ Item_category f' = Item_category f /\
   Item_name f' = Item_name f /\
   Item_short_description f' = Item_short_description f /\
   Item_long_description f' = Item_long_description f /\
   Item_default_price f' = Item_default_price f /\
   Item_tax_rate f' = Item_tax_rate f /\
   Item_properties f' = Item_properties f /\
   Item_questions f' = Item_questions f /\
   id (row self') = id (row self) /\ identity (row self') = identity (row self) /\
   version_start_date (row self') = version_start_date (row self) /\
   version_end_date (row self') = version_end_date (row self) /\
   version_birth_date (row self') = version_birth_date (row self) /\
   _get_all_variations_cache self' = _get_all_variations_cache self) /\
  objects w' = db_save (IItem (row self')) (objects w) /\
  effects w' = effects w ++ [Saved (IItem (row self')); Cleared (Item_event f)] /\
  length (List.filter (fun e => match e with Cleared _ => true | _ => false end)
                      (drop (length (effects w)) (effects w'))) = 1%nat /\
  List.filter (fun e => match e with Deleted _ => true | _ => false end)
              (drop (length (effects w)) (effects w')) = [].
Proof.
  cbv zeta. unfold Item_delete, Versionable_save, get_cache_clear. cbn -[app drop].
  rewrite <- app_assoc. cbn [app].
  rewrite drop_app_length. cbn.
  repeat split; reflexivity.
Qed.

End Invalidation.

(** With Django's [save] the row of the deleted item is among the rows
    afterwards. *)
Lemma Item_delete_keeps_row (self : ItemInstance) (w : World) :
  In (IItem (row (@Item_delete django_backend self w).1))
     (objects (@Item_delete django_backend self w).2).
Proof.
  cbn. unfold upsert. set (x := IItem _).
  destruct (existsb (same_row x) (objects w)) eqn:Hex.
  - apply existsb_exists in Hex as (y & Hy & Hsame).
    apply in_map_iff. exists y. rewrite Hsame. split; [reflexivity | assumption].
  - apply in_or_app. right. now left.
Qed.

(** [Quota.save] on a quota of event 1 in an empty world. *)
Example Quota_save_quota1 :
  effects (@Quota_save django_backend quota1 (mkWorld [] []))
  = [Saved (IQuota quota1)].
Proof. reflexivity. Qed.

(** ** get_all_variations *)

Lemma fold_left_snoc_map {A B : Type} (f : A -> B) (l : list A) (init : list B) :
  fold_left (fun acc x => acc ++ [f x]) l init = init ++ map f l.
Proof.
  revert init. induction l as [|x l IH]; intros init; simpl.
  - now rewrite app_nil_r.
  - rewrite IH, <- app_assoc. reflexivity.
Qed.

(** The result holds one binding per combination, in the order of the
    combinations. *)
Lemma compute_all_variations_map (w : World) (self : Item) :
  compute_all_variations w self
  = map (binding (build_variations_cache (Item_variations_all w self)))
        (combinations w self).
Proof. unfold compute_all_variations. now rewrite fold_left_snoc_map. Qed.

Lemma get_all_variations_fresh (w : World) (self : ItemInstance) (use_cache : bool) :
  use_cache = false \/ _get_all_variations_cache self = None ->
  get_all_variations w self use_cache
  = (compute_all_variations w (row self),
     mkItemInstance (row self) (Some (compute_all_variations w (row self)))).
Proof.
  intros [-> | Hnone]; unfold get_all_variations.
  - reflexivity.
  - rewrite Hnone. now destruct use_cache.
Qed.

Lemma get_all_variations_cached (w : World) (self : ItemInstance)
    (cached : list VariationDict) :
  _get_all_variations_cache self = Some cached ->
  get_all_variations w self true = (cached, self).
Proof. intros Hc. unfold get_all_variations. now rewrite Hc. Qed.

Lemma variation_key_pairs (var : ItemVariation) :
  variation_key var
  = sorted (map (fun v => (prop_id (fields v), identity v))
                (ItemVariation_values_all var)).
Proof.
  unfold variation_key.
  now rewrite (fold_left_snoc_map (fun v => (prop_id (fields v), identity v))).
Qed.

Lemma comb_fold_key (comb : list PropertyValue) (k0 : list (string * string))
    (d0 : VariationDict) :
  (fold_left (fun '(key, var) v =>
                (key ++ [(identity (prop (fields v)), identity v)],
                 <[identity (prop (fields v)) := DValue v]> var))
             comb (k0, d0)).1
  = k0 ++ map (fun v => (identity (prop (fields v)), identity v)) comb.
Proof.
  revert k0 d0. induction comb as [|v comb IH]; intros k0 d0; simpl.
  - now rewrite app_nil_r.
  - rewrite IH, <- app_assoc. reflexivity.
Qed.

Lemma comb_fold_values (comb : list PropertyValue) (k0 : list (string * string))
    (d0 : VariationDict) (k : string) (x : DictValue) :
  (fold_left (fun '(key, var) v =>
                (key ++ [(identity (prop (fields v)), identity v)],
                 <[identity (prop (fields v)) := DValue v]> var))
             comb (k0, d0)).2 !! k = Some x ->
  d0 !! k = Some x \/ exists v, v ∈ comb /\ x = DValue v.
Proof.
  revert k0 d0. induction comb as [|v comb IH]; intros k0 d0; simpl.
  - now left.
  - intros Hl. apply IH in Hl as [Hl | (v' & Hin & ->)].
    + destruct (decide (identity (prop (fields v)) = k)) as [<- | Hne].
      * rewrite lookup_insert_eq in Hl. inversion Hl. right. exists v.
        split; [apply elem_of_cons; now left | reflexivity].
      * rewrite lookup_insert_ne in Hl by assumption. now left.
    + right. exists v'. split; [apply elem_of_cons; now right | reflexivity].
Qed.

Lemma comb_pairs_key (comb : list PropertyValue) :
  (comb_pairs comb).1 = map (fun v => (identity (prop (fields v)), identity v)) comb.
Proof. unfold comb_pairs. now rewrite comb_fold_key. Qed.

(** Without an override, no entry of a binding is a variation. *)
Lemma comb_pairs_no_override (comb : list PropertyValue) :
  override (comb_pairs comb).2 = None.
Proof.
  unfold override.
  destruct ((comb_pairs comb).2 !! "variation") as [x|] eqn:Hl; [| reflexivity].
  apply comb_fold_values in Hl as [Hl | (v & _ & ->)]; [| reflexivity].
  rewrite lookup_empty in Hl. discriminate.
Qed.

Lemma cache_fold_lookup (vars : list ItemVariation)
    (c0 : gmap (list (string * string)) ItemVariation) (k : list (string * string)) :
  is_Some (fold_left (fun variations_cache var =>
                        <[variation_key var := var]> variations_cache) vars c0 !! k)
  <-> is_Some (c0 !! k) \/ exists var, var ∈ vars /\ variation_key var = k.
Proof.
  revert c0. induction vars as [|var vars IH]; intros c0; simpl.
  - split; [now left |]. intros [Hs | (var & Hin & _)]; [assumption |].
    inversion Hin.
  - rewrite IH. split.
    + intros [Hs | (var' & Hin & Hk)].
      * destruct (decide (variation_key var = k)) as [Heq | Hne].
        -- right. exists var. split; [apply elem_of_cons; now left | assumption].
        -- rewrite lookup_insert_ne in Hs by assumption. now left.
      * right. exists var'. split; [apply elem_of_cons; now right | assumption].
    + intros [Hs | (var' & Hin & Hk)].
      * left. destruct (decide (variation_key var = k)) as [<- | Hne].
        -- rewrite lookup_insert_eq. eauto.
        -- now rewrite lookup_insert_ne by assumption.
      * apply elem_of_cons in Hin as [-> | Hin].
        -- left. rewrite <- Hk, lookup_insert_eq. eauto.
        -- right. exists var'. split; assumption.
Qed.

(** A key is in the index exactly when a variation is indexed under it. *)
Lemma variations_cache_lookup (vars : list ItemVariation) (k : list (string * string)) :
  is_Some (build_variations_cache vars !! k)
  <-> exists var, var ∈ vars /\ variation_key var = k.
Proof.
  unfold build_variations_cache. rewrite cache_fold_lookup.
  split; [| now right]. intros [Hs | Hex]; [| assumption].
  rewrite lookup_empty in Hs. now destruct Hs.
Qed.

Lemma by_position_elem (vs : list PropertyValue) (v : PropertyValue) :
  v ∈ by_position vs <-> v ∈ vs.
Proof. unfold by_position. now rewrite merge_sort_Permutation. Qed.

(** Under foreign key integrity the index key of a variation is the
    signature of its values. *)
Lemma variation_key_signature (var : ItemVariation) :
  (forall v, v ∈ ItemVariation_values (fields var) -> prop_fk_ok v) ->
  variation_key var = signature (ItemVariation_values_all var).
Proof.
  intros Hfk. rewrite variation_key_pairs. unfold signature. f_equal.
  apply map_ext_in. intros v Hin. apply list_elem_of_In in Hin.
  unfold ItemVariation_values_all in Hin.
  apply (proj1 (by_position_elem _ _)) in Hin.
  now rewrite (Hfk v Hin).
Qed.

(** The override of the binding built from a combination. *)
Lemma binding_override (cache : gmap (list (string * string)) ItemVariation)
    (comb : list PropertyValue) :
  override (binding cache comb)
  = if (length comb =? 0)%nat then None else cache !! signature comb.
Proof.
  unfold binding. destruct (length comb =? 0)%nat; [reflexivity |].
  pose proof (comb_pairs_key comb) as Hk.
  pose proof (comb_pairs_no_override comb) as Hno.
  destruct (comb_pairs comb) as [key var]. simpl in Hk, Hno. subst key.
  fold (signature comb).
  destruct (cache !! signature comb) as [o|]; [| assumption].
  unfold override. now rewrite lookup_insert_eq.
Qed.

Lemma product_length {A : Type} (ls : list (list A)) (c : list A) :
  In c (product ls) -> length c = length ls.
Proof.
  revert c. induction ls as [|l ls IH]; intros c; simpl.
  - intros [<- | []]. reflexivity.
  - intros Hin. apply in_flat_map in Hin as (x & _ & Hc).
    apply in_map_iff in Hc as (c' & <- & Hc'). simpl. f_equal. now apply IH.
Qed.

Lemma cache_fold_lookup_Some (vars : list ItemVariation)
    (c0 : gmap (list (string * string)) ItemVariation) (k : list (string * string))
    (var : ItemVariation) :
  fold_left (fun variations_cache var =>
               <[variation_key var := var]> variations_cache) vars c0 !! k = Some var ->
  c0 !! k = Some var \/ (var ∈ vars /\ variation_key var = k).
Proof.
  revert c0. induction vars as [|var' vars IH]; intros c0; simpl.
  - now left.
  - intros Hl. apply IH in Hl as [Hl | [Hin Hk]].
    + destruct (decide (variation_key var' = k)) as [Heq | Hne].
      * subst k. rewrite lookup_insert_eq in Hl. inversion Hl; subst var'.
        right. split; [apply elem_of_cons; now left | reflexivity].
      * rewrite lookup_insert_ne in Hl by assumption. now left.
    + right. split; [apply elem_of_cons; now right | assumption].
Qed.

(** The variation found under a key is one of the indexed ones. *)
Lemma variations_cache_lookup_Some (vars : list ItemVariation)
    (k : list (string * string)) (var : ItemVariation) :
  build_variations_cache vars !! k = Some var ->
  var ∈ vars /\ variation_key var = k.
Proof.
  intros Hl. apply cache_fold_lookup_Some in Hl as [Hl | Hin]; [| assumption].
  rewrite lookup_empty in Hl. discriminate.
Qed.

Lemma combinations_length (w : World) (self : Item) (i : nat) (comb : list PropertyValue) :
  combinations w self !! i = Some comb ->
  length comb = length (Item_properties_all self).
Proof.
  intros Hl. apply list_elem_of_lookup_2, list_elem_of_In in Hl.
  apply product_length in Hl. now rewrite length_map in Hl.
Qed.

(** C1, as the code has it: in a computed result, the binding built from a
    combination of an item with at least one property carries an override
    exactly when some variation of the item has the signature of the
    combination, and the override it carries is such a variation; the
    binding of an item without properties carries none.  Foreign key
    integrity of the variations' values is assumed. *)
Theorem override_iff_match_with_properties (w : World) (self : ItemInstance)
    (use_cache : bool) (i : nat) (comb : list PropertyValue) (d : VariationDict) :
  use_cache = false \/ _get_all_variations_cache self = None ->
  (forall var v, var ∈ Item_variations_all w (row self) ->
                 v ∈ ItemVariation_values (fields var) -> prop_fk_ok v) ->
  combinations w (row self) !! i = Some comb ->
  (get_all_variations w self use_cache).1 !! i = Some d ->
  (Item_properties_all (row self) <> [] ->
     override_iff_match w (row self) comb d /\
     forall var, override d = Some var ->
                 var ∈ Item_variations_all w (row self) /\
                 signature (ItemVariation_values_all var) = signature comb) /\
  (Item_properties_all (row self) = [] -> override d = None).
Proof.
  intros Hfresh Hfk Hcomb Hd.
  rewrite (get_all_variations_fresh _ _ _ Hfresh) in Hd. simpl in Hd.
  rewrite compute_all_variations_map, list_lookup_fmap, Hcomb in Hd.
  simpl in Hd. inversion Hd as [Hd']. clear Hd.
  pose proof (combinations_length _ _ _ _ Hcomb) as Hlen.
  rewrite binding_override.
  split.
  - intros Hprops.
    assert (Hnz : (length comb =? 0)%nat = false).
    { apply Nat.eqb_neq. rewrite Hlen.
      destruct (Item_properties_all (row self)); [congruence | simpl; lia]. }
    rewrite Hnz. split.
    + unfold override_iff_match. rewrite binding_override, Hnz.
      rewrite variations_cache_lookup. split.
      * intros (var & Hin & Hk). exists var. split; [assumption |].
        rewrite <- Hk. symmetry. apply variation_key_signature. eauto.
      * intros (var & Hin & Hs). exists var. split; [assumption |].
        rewrite <- Hs. apply variation_key_signature. eauto.
    + intros var Hl. apply variations_cache_lookup_Some in Hl as [Hin Hk].
      split; [assumption |]. rewrite <- Hk. symmetry.
      apply variation_key_signature. eauto.
  - intros Hprops. rewrite Hprops in Hlen. simpl in Hlen.
    now rewrite Hlen.
Qed.

(** The shirt: the third combination is (b, x), the one with the override. *)
Lemma override_iff_match_with_properties_witness :
  let d := binding (build_variations_cache (Item_variations_all shirt_world shirt))
                   [val_b; val_x] in
  override_iff_match shirt_world shirt [val_b; val_x] d /\
  override d = Some var_bx.
Proof.
  cbv zeta.
  assert (Hfk : forall var v, var ∈ Item_variations_all shirt_world shirt ->
                  v ∈ ItemVariation_values (fields var) -> prop_fk_ok v).
  { intros var v Hvar Hv.
    change (Item_variations_all shirt_world shirt) with [var_bx] in Hvar.
    apply list_elem_of_singleton in Hvar. subst var.
    change (ItemVariation_values (fields var_bx)) with [val_x; val_b] in Hv.
    apply elem_of_cons in Hv as [-> | Hv]; [reflexivity |].
    apply list_elem_of_singleton in Hv. subst v. reflexivity. }
  destruct (override_iff_match_with_properties shirt_world (mkItemInstance shirt None)
              false 2 [val_b; val_x] _ (or_introl eq_refl) Hfk eq_refl eq_refl)
    as [Hwith _].
  destruct Hwith as [Hiff _]; [discriminate |].
  split; [exact Hiff | reflexivity].
Defined.

(** The spec's example: of the four bindings of the shirt only the one for
    (b, x) carries the override. *)
Example shirt_overrides :
  map (fun d => identity <$> override d)
      (get_all_variations shirt_world (mkItemInstance shirt None) false).1
  = [None; None; Some "var-bx"; None].
Proof. vm_compute. reflexivity. Qed.

(** C1 as written fails on the item without properties: its one binding
    carries no override although [var_plain], a variation of the item, has
    the signature of the empty combination. *)
Lemma override_iff_match_everywhere_fails :
  ~ override_iff_match_everywhere ticket_world ticket.
Proof.
  intros Hall.
  specialize (Hall 0%nat [] ∅ eq_refl eq_refl).
  destruct Hall as [_ Hback].
  assert (Hsome : is_Some (override (∅ : VariationDict))).
  { apply Hback. exists var_plain. split.
    - change (Item_variations_all ticket_world ticket) with [var_plain].
      now apply list_elem_of_singleton.
    - reflexivity. }
  destruct Hsome as [x Hx]. unfold override in Hx.
  rewrite lookup_empty in Hx. discriminate.
Qed.

#[local] Instance position_le_total : Total position_le.
Proof. intros a b. unfold position_le. lia. Qed.

(** Values come back in ascending position. *)
Lemma by_position_sorted (vs : list PropertyValue) :
  Sorted position_le (by_position vs).
Proof. unfold by_position. apply Sorted_merge_sort. apply _. Qed.

Lemma Property_values_all_fk (w : World) (p : Property) (v : PropertyValue) :
  v ∈ Property_values_all w p -> prop_id (fields v) = identity p.
Proof.
  unfold Property_values_all. rewrite by_position_elem, list_elem_of_omap.
  intros (o & _ & Ho). destruct o; try discriminate.
  destruct (String.eqb (prop_id (fields o)) (identity p)) eqn:He; [| discriminate].
  inversion Ho; subst o. now apply String.eqb_eq.
Qed.

Lemma binding_two (cache : gmap (list (string * string)) ItemVariation)
    (v1 v2 : PropertyValue) :
  identity (prop (fields v1)) <> identity (prop (fields v2)) ->
  identity (prop (fields v1)) <> "variation" ->
  identity (prop (fields v2)) <> "variation" ->
  binds2 (binding cache [v1; v2])
         (identity (prop (fields v1))) v1 (identity (prop (fields v2))) v2.
Proof.
  intros H12 H1 H2. unfold binding, comb_pairs.
  cbn [length Nat.eqb fold_left app].
  assert (Hkeys : forall (d : VariationDict) k,
             is_Some ((<[identity (prop (fields v2)) := DValue v2]>
                        (<[identity (prop (fields v1)) := DValue v1]> ∅) : VariationDict)
                      !! k) ->
             k = identity (prop (fields v1)) \/ k = identity (prop (fields v2))).
  { intros _ k [x Hx].
    destruct (decide (identity (prop (fields v2)) = k)) as [-> | Hn2]; [now right |].
    rewrite lookup_insert_ne in Hx by assumption.
    destruct (decide (identity (prop (fields v1)) = k)) as [-> | Hn1]; [now left |].
    rewrite lookup_insert_ne, lookup_empty in Hx by assumption. discriminate. }
  destruct (cache !! _) as [o|]; unfold binds2.
  - repeat split.
    + rewrite lookup_insert_ne by congruence.
      rewrite lookup_insert_ne by congruence. apply lookup_insert_eq.
    + rewrite lookup_insert_ne by congruence. apply lookup_insert_eq.
    + intros k Hk.
      destruct (decide ("variation" = k)) as [<- | Hn]; [now right; right |].
      rewrite lookup_insert_ne in Hk by assumption.
      destruct (Hkeys ∅ k Hk); tauto.
  - repeat split.
    + rewrite lookup_insert_ne by congruence. apply lookup_insert_eq.
    + apply lookup_insert_eq.
    + intros k Hk. destruct (Hkeys ∅ k Hk); tauto.
Qed.

(** C7: an item with the properties P1 and P2, whose values in query order
    are a, b and x, y, has the four bindings (a,x), (a,y), (b,x), (b,y) in
    this order; a precedes b and x precedes y by position; and a further
    call on the same object and rows, cached or not, returns the same
    list. *)
Theorem two_by_two_product_order (w : World) (self : ItemInstance) (use_cache : bool)
    (p1 p2 : Property) (a b x y : PropertyValue) :
  use_cache = false \/ _get_all_variations_cache self = None ->
  Item_properties_all (row self) = [p1; p2] ->
  Property_values_all w p1 = [a; b] ->
  Property_values_all w p2 = [x; y] ->
  prop_fk_ok a -> prop_fk_ok b -> prop_fk_ok x -> prop_fk_ok y ->
  identity p1 <> identity p2 ->
  identity p1 <> "variation" -> identity p2 <> "variation" ->
  let result := (get_all_variations w self use_cache).1 in
  let self' := (get_all_variations w self use_cache).2 in
  (exists d1 d2 d3 d4,
      result = [d1; d2; d3; d4] /\
      binds2 d1 (identity p1) a (identity p2) x /\
      binds2 d2 (identity p1) a (identity p2) y /\
      binds2 d3 (identity p1) b (identity p2) x /\
      binds2 d4 (identity p1) b (identity p2) y) /\
  position_le a b /\ position_le x y /\
  (forall use_cache', (get_all_variations w self' use_cache').1 = result).
Proof.
  intros Hfresh Hprops Hv1 Hv2 Ha Hb Hx Hy H12 H1 H2. cbv zeta.
  rewrite (get_all_variations_fresh _ _ _ Hfresh). cbn [fst snd].
  assert (Hida : identity (prop (fields a)) = identity p1).
  { rewrite <- Ha. apply (Property_values_all_fk w). rewrite Hv1.
    apply elem_of_cons; now left. }
  assert (Hidb : identity (prop (fields b)) = identity p1).
  { rewrite <- Hb. apply (Property_values_all_fk w). rewrite Hv1.
    apply elem_of_cons; right. apply elem_of_cons; now left. }
  assert (Hidx : identity (prop (fields x)) = identity p2).
  { rewrite <- Hx. apply (Property_values_all_fk w). rewrite Hv2.
    apply elem_of_cons; now left. }
  assert (Hidy : identity (prop (fields y)) = identity p2).
  { rewrite <- Hy. apply (Property_values_all_fk w). rewrite Hv2.
    apply elem_of_cons; right. apply elem_of_cons; now left. }
  repeat split.
  - rewrite compute_all_variations_map. unfold combinations.
    rewrite Hprops. cbn [map]. rewrite Hv1, Hv2.
    cbn [product flat_map map app].
    do 4 eexists. split; [reflexivity |].
    rewrite <- Hida at 1 2. rewrite <- Hidb at 1 2.
    rewrite <- Hidx at 1 3. rewrite <- Hidy.
    repeat split; apply binding_two; congruence.
  - pose proof (by_position_sorted
                  (omap (fun o => match o with
                                  | IPropertyValue v =>
                                      if String.eqb (prop_id (fields v)) (identity p1)
                                      then Some v else None
                                  | _ => None
                                  end) (objects w))) as Hs.
    fold (Property_values_all w p1) in Hs. rewrite Hv1 in Hs.
    inversion Hs as [| ? ? _ Hhd]. now inversion Hhd.
  - pose proof (by_position_sorted
                  (omap (fun o => match o with
                                  | IPropertyValue v =>
                                      if String.eqb (prop_id (fields v)) (identity p2)
                                      then Some v else None
                                  | _ => None
                                  end) (objects w))) as Hs.
    fold (Property_values_all w p2) in Hs. rewrite Hv2 in Hs.
    inversion Hs as [| ? ? _ Hhd]. now inversion Hhd.
  - intros [|].
    + now rewrite (get_all_variations_cached _ _ (compute_all_variations w (row self))).
    + now rewrite get_all_variations_fresh by now left.
Qed.

(** The shirt, whose value rows are stored as y, b, x, a. *)
Lemma two_by_two_product_order_witness :
  let result := (get_all_variations shirt_world (mkItemInstance shirt None) false).1 in
  exists d1 d2 d3 d4,
    result = [d1; d2; d3; d4] /\
    binds2 d1 "prop-1" val_a "prop-2" val_x /\
    binds2 d2 "prop-1" val_a "prop-2" val_y /\
    binds2 d3 "prop-1" val_b "prop-2" val_x /\
    binds2 d4 "prop-1" val_b "prop-2" val_y.
Proof.
  cbv zeta.
  apply (two_by_two_product_order shirt_world (mkItemInstance shirt None) false
           P1 P2 val_a val_b val_x val_y);
    [ now left | reflexivity | reflexivity | reflexivity
    | reflexivity | reflexivity | reflexivity | reflexivity
    | discriminate | discriminate | discriminate ].
Defined.

(** C8: a computed result for an item without properties is one binding,
    which is the empty dictionary: it assigns no value and carries no
    override, whatever variations the rows hold. *)
Theorem no_properties_one_empty_binding (w : World) (self : ItemInstance)
    (use_cache : bool) :
  use_cache = false \/ _get_all_variations_cache self = None ->
  Item_properties_all (row self) = [] ->
  exists d : VariationDict,
    (get_all_variations w self use_cache).1 = [d] /\
    d = ∅ /\ (forall k, d !! k = None) /\ override d = None.
Proof.
  intros Hfresh Hprops. exists ∅.
  rewrite (get_all_variations_fresh _ _ _ Hfresh). cbn [fst].
  unfold compute_all_variations. rewrite Hprops. cbn.
  repeat split.
Qed.

(** The ticket, which has a variation without values. *)
Lemma no_properties_one_empty_binding_witness :
  exists d : VariationDict,
    (get_all_variations ticket_world (mkItemInstance ticket None) false).1 = [d] /\
    d = ∅ /\ (forall k, d !! k = None) /\ override d = None.
Proof.
  apply (no_properties_one_empty_binding ticket_world (mkItemInstance ticket None) false);
    [ now left | reflexivity ].
Defined.

(** ** The attribute that caches the result *)

Section Memo.

Context `{Backend}.

(** No [save] or [delete] of a related object takes the item object: the
    attribute is out of their reach.  What a call with [use_cache=True]
    returns once the attribute is set does not depend on the rows. *)
Lemma cached_call_ignores_rows (w1 w2 : World) (self : ItemInstance)
    (cached : list VariationDict) :
  _get_all_variations_cache self = Some cached ->
  get_all_variations w1 self true = get_all_variations w2 self true.
Proof.
  intros Hc. now rewrite !(get_all_variations_cached _ _ cached Hc).
Qed.

(** C3, as the code has it: once the attribute is set on an item object,
    a call with [use_cache=True] after [ItemVariation.save] returns the
    cached list and leaves the object as it is, whatever was saved;
    [save] itself ends with the [clear()] of the event's cache; and a
    call with [use_cache=False] computes from the rows as they are after
    the save and stores that result in the attribute. *)
Theorem cached_result_outlives_save (w : World) (self : ItemInstance)
    (var : ItemVariation) (cached : list VariationDict) :
  _get_all_variations_cache self = Some cached ->
  let w' := ItemVariation_save var w in
  get_all_variations w' self true = (cached, self) /\
  last_effect w' = Some (Cleared (Item_event (fields (ItemVariation_item (fields var))))) /\
  (get_all_variations w' self false).1 = compute_all_variations w' (row self) /\
  _get_all_variations_cache (get_all_variations w' self false).2
  = Some (compute_all_variations w' (row self)).
Proof.
  intros Hc. cbv zeta. repeat split.
  - now apply get_all_variations_cached.
  - apply ItemVariation_clears_last.
Qed.

End Memo.

Lemma cached_result_outlives_save_witness :
  let w' := @ItemVariation_save django_backend var_bx_inactive shirt_world in
  get_all_variations w' shirt_after_call true
  = (compute_all_variations shirt_world shirt, shirt_after_call).
Proof.
  cbv zeta.
  apply (@cached_result_outlives_save django_backend shirt_world shirt_after_call
           var_bx_inactive (compute_all_variations shirt_world shirt) eq_refl).
Defined.

(** C3 as written fails: the shirt is listed once, the override is saved
    as inactive, and the cached call still returns the binding with the
    active override, not what the rows now give. *)
Lemma cached_call_reflects_save_fails :
  ~ cached_call_reflects_save shirt_world shirt_after_call var_bx_inactive.
Proof.
  unfold cached_call_reflects_save. cbv zeta. intros Heq.
  apply (f_equal (fun r => (fun var => ItemVariation_active (fields var))
                             <$> (r !! 2%nat ≫= override))) in Heq.
  vm_compute in Heq. discriminate.
Qed.

(** ** The signature does not depend on the order of the values *)

Lemma string_compare_lt_trans (a b c : string) :
  String.compare a b = Lt -> String.compare b c = Lt -> String.compare a c = Lt.
Proof.
  intros Hab Hbc. apply String_as_OT.cmp_lt.
  apply String_as_OT.lt_trans with b; now apply String_as_OT.cmp_lt.
Qed.

Lemma string_compare_lt_gt (a b : string) :
  String.compare a b = Gt <-> String.compare b a = Lt.
Proof.
  rewrite (String.compare_antisym a b).
  destruct (String.compare b a); simpl; split; congruence.
Qed.

Lemma string_compare_refl (a : string) : String.compare a a = Eq.
Proof. now apply String_as_OT.cmp_eq. Qed.

(** The order on pairs spelled out. *)
Lemma pair_le_spec (a b : string * string) :
  pair_le a b <->
  String.compare a.1 b.1 = Lt \/
  (a.1 = b.1 /\ (String.compare a.2 b.2 = Lt \/ a.2 = b.2)).
Proof.
  unfold pair_le, pair_leb, String.leb.
  destruct (String.compare a.1 b.1) eqn:H1.
  - apply String.compare_eq_iff in H1.
    destruct (String.compare a.2 b.2) eqn:H2; simpl.
    + apply String.compare_eq_iff in H2. intuition congruence.
    + intuition congruence.
    + split; [intros [] |]. intros [Hl | [_ [Hl | He]]]; try discriminate.
      rewrite He, string_compare_refl in H2. discriminate.
  - simpl. intuition.
  - simpl. split; [intros [] |]. intros [Hl | [He _]]; [discriminate |].
    rewrite He, string_compare_refl in H1. discriminate.
Qed.

#[local] Instance pair_le_total : Total pair_le.
Proof.
  intros a b. rewrite !pair_le_spec.
  destruct (String.compare a.1 b.1) eqn:H1.
  - apply String.compare_eq_iff in H1.
    destruct (String.compare a.2 b.2) eqn:H2.
    + apply String.compare_eq_iff in H2. left. right. tauto.
    + left. right. tauto.
    + apply string_compare_lt_gt in H2. right. right. split; [congruence | tauto].
  - left. now left.
  - apply string_compare_lt_gt in H1. right. now left.
Qed.

Lemma string_compare_lt_irrefl (a : string) : String.compare a a <> Lt.
Proof.
  rewrite string_compare_refl. discriminate.
Qed.

#[local] Instance pair_le_trans : Transitive pair_le.
Proof.
  intros a b c. rewrite !pair_le_spec.
  intros [Hab | [Hab1 Hab2]] [Hbc | [Hbc1 Hbc2]].
  - left. eapply string_compare_lt_trans; eassumption.
  - left. now rewrite <- Hbc1.
  - left. now rewrite Hab1.
  - right. split; [congruence |].
    destruct Hab2 as [Hl | He], Hbc2 as [Hl' | He'].
    + left. eapply string_compare_lt_trans; eassumption.
    + left. now rewrite <- He'.
    + left. now rewrite He.
    + right. congruence.
Qed.

#[local] Instance pair_le_antisym : AntiSymm (=) pair_le.
Proof.
  intros a b. rewrite !pair_le_spec.
  intros [Hab | [Hab1 Hab2]] [Hba | [Hba1 Hba2]].
  - exfalso. apply (string_compare_lt_irrefl a.1).
    eapply string_compare_lt_trans; eassumption.
  - exfalso. rewrite Hba1 in Hab. now apply string_compare_lt_irrefl in Hab.
  - exfalso. rewrite Hab1 in Hba. now apply string_compare_lt_irrefl in Hba.
  - destruct a as [a1 a2], b as [b1 b2]. simpl in *. subst b1. f_equal.
    destruct Hab2 as [Hl | He]; [| assumption].
    destruct Hba2 as [Hl' | He']; [| congruence].
    exfalso. apply (string_compare_lt_irrefl a2).
    eapply string_compare_lt_trans; eassumption.
Qed.

(** [sorted] returns the one ascending arrangement of its argument. *)
Lemma sorted_canonical (k1 k2 : list (string * string)) :
  sorted k1 = sorted k2 <-> k1 ≡ₚ k2.
Proof.
  unfold sorted. split.
  - intros Heq. rewrite <- (merge_sort_Permutation pair_le k1), Heq.
    apply merge_sort_Permutation.
  - intros Hp. apply (Sorted_unique pair_le).
    + apply Sorted_merge_sort; apply _.
    + apply Sorted_merge_sort; apply _.
    + now rewrite !merge_sort_Permutation.
Qed.

(** Two collections of values have the same signature exactly when they
    give the same pairs of property identity and value identity, counted
    with multiplicity, in whatever order. *)
Lemma signature_eq_iff (vs1 vs2 : list PropertyValue) :
  signature vs1 = signature vs2 <->
  map (fun v => (identity (prop (fields v)), identity v)) vs1
  ≡ₚ map (fun v => (identity (prop (fields v)), identity v)) vs2.
Proof. unfold signature. apply sorted_canonical. Qed.

(** The order in which a variation's values are attached is immaterial:
    (x, b) is the override of the combination (b, x). *)
Example signature_var_bx :
  signature (ItemVariation_values (fields var_bx)) = signature [val_b; val_x].
Proof. vm_compute. reflexivity. Qed.

(** ** User names *)

Lemma str_truth_Some (s : option string) :
  str_truth s = true <-> exists v, s = Some v /\ v <> "".
Proof.
  destruct s as [v|]; simpl.
  - rewrite negb_true_iff, String.eqb_neq. split.
    + intros Hv. exists v. now split.
    + intros (v' & Hv & Hne). now inversion Hv; subst.
  - split; [discriminate | intros (v & Hv & _); discriminate].
Qed.

(** X1: [get_full_name] and [get_short_name] return the same unless both
    the given and the family name are set (an empty name counts as not
    set); with both set the full name is "family, given" and the short name
    is the given name. *)
Theorem full_name_vs_short_name (u : User) :
  (str_truth (User_givenname u) && str_truth (User_familyname u) = false ->
   User_get_full_name u = User_get_short_name u) /\
  (forall given family,
     User_givenname u = Some given -> User_familyname u = Some family ->
     given <> "" -> family <> "" ->
     User_get_full_name u = Some (String.append family (String.append ", " given)) /\
     User_get_short_name u = Some given).
Proof.
  unfold User_get_full_name, User_get_short_name. split.
  - destruct (str_truth (User_givenname u)), (str_truth (User_familyname u));
      simpl; intros Hb; try reflexivity; discriminate.
  - intros given family Hg Hf Hgn Hfn.
    assert (Htg : str_truth (User_givenname u) = true).
    { apply str_truth_Some. eauto. }
    assert (Htf : str_truth (User_familyname u) = true).
    { apply str_truth_Some. eauto. }
    rewrite Htg, Htf. simpl. rewrite Hg, Hf. now split.
Qed.

(** ** User.save and UserManager *)

Section UserProperties.

Context {S : Type}.
Variable lower : string -> string.
Variable Model_save : User -> S -> User * S.
Variable make_password : option string -> string.
Variable LANGUAGE_CODE : string.
Variable TIME_ZONE : string.



Lemma set_identifier_same (self : User) (i : string) :
  User_identifier self = Some i -> set_identifier self (Some i) = self.
Proof. intros Hi. destruct self. simpl in *. subst. reflexivity. Qed.

(** X3: a user that has a primary key and an identifier is handed to the
    inherited [save] unchanged: the identifier of a stored user is never
    rewritten, whatever its letter case and whatever e-mail address or
    username the object now has. *)
Theorem User_save_keeps_identifier (self : User) (db : S) (i : string) :
  int_truth (User_pk self) = true ->
  User_identifier self = Some i ->
  User_save lower Model_save self db
  = (None, (Model_save self db).1, (Model_save self db).2).
Proof.
  intros Hpk Hi. unfold User_save, fill_identifier. rewrite Hi, Hpk. simpl.
  rewrite (set_identifier_same _ _ Hi). now destruct (Model_save self db).
Qed.

(** X4: when [User.save] succeeds on an object without a primary key, the
    object handed to the inherited [save] differs from the original in the
    identifier only, and that identifier is in lower case: the given
    identifier lowered, or else the e-mail address lowered.  [str.lower] is
    taken to return a string that [str.lower] leaves alone. *)
Theorem User_save_new_lowercases (self u' : User) (db db' : S) :
  (forall s, lower (lower s) = lower s) ->
  int_truth (User_pk self) = false ->
  User_save lower Model_save self db = (None, u', db') ->
  exists i,
    (u', db') = Model_save (set_identifier self (Some i)) db /\
    lower i = i /\
    (forall i0, User_identifier self = Some i0 -> i = lower i0) /\
    (User_identifier self = None ->
     exists e, User_email self = Some e /\ User_event self = None /\ i = lower e).
Proof.
  intros Hidem Hpk. unfold User_save. rewrite Hpk. simpl.
  destruct (fill_identifier lower self) as [e | i] eqn:Hfill; [discriminate |].
  destruct (Model_save (set_identifier self (Some (lower i))) db) as [u1 db1] eqn:Hs.
  intros Heq. inversion Heq; subst u1 db1. exists (lower i).
  split; [now rewrite Hs |]. split; [apply Hidem |]. split.
  - intros i0 Hi0. unfold fill_identifier in Hfill. rewrite Hi0 in Hfill.
    now inversion Hfill.
  - intros Hnone. unfold fill_identifier, local_identifier in Hfill.
    rewrite Hnone in Hfill.
    destruct (User_event self) as [ev|].
    + destruct (User_username self); discriminate.
    + destruct (User_email self) as [e|]; [| discriminate].
      inversion Hfill; subst i. exists e. rewrite Hidem. now repeat split.
Qed.


(** X6: [create_user] does not use the username it is given: the object it
    saves has no username, is neither staff nor superuser, and carries the
    hashed password and the lowered identifier. *)
Theorem create_user_drops_username (i : string) (username password : option string)
    (db : S) :
  create_user lower Model_save make_password LANGUAGE_CODE TIME_ZONE
    (Some i) username password db
  = (inr (Model_save
            (mkUser None (make_password password) None false (Some (lower i)) None
                    None None None None true false None LANGUAGE_CODE TIME_ZONE)
            db).1,
     (Model_save
        (mkUser None (make_password password) None false (Some (lower i)) None
                None None None None true false None LANGUAGE_CODE TIME_ZONE)
        db).2).
Proof.
  unfold create_user, User_save, fill_identifier, new_user. simpl.
  now destruct (Model_save _ db).
Qed.

End UserProperties.

Lemma ascii_lower_idem (c : ascii) : ascii_lower (ascii_lower c) = ascii_lower c.
Proof. destruct c as [[] [] [] [] [] [] [] []]; reflexivity. Qed.

Lemma lower_ascii_idem (s : string) : lower_ascii (lower_ascii s) = lower_ascii s.
Proof.
  induction s as [|c s IH]; simpl; [reflexivity |].
  now rewrite ascii_lower_idem, IH.
Qed.

(** Alice is stored again: her identifier keeps its capitals. *)
Lemma User_save_keeps_identifier_witness :
  User_save lower_ascii users_save alice [alice] = (None, alice, [alice]).
Proof.
  exact (User_save_keeps_identifier lower_ascii users_save alice [alice]
           "Alice@Example.org" eq_refl eq_refl).
Defined.

(** Bob is stored for the first time, under his lowered e-mail address. *)
Lemma User_save_new_lowercases_witness :
  exists i,
    (User_save lower_ascii users_save bob []).1.2
    = (users_save (set_identifier bob (Some i)) []).1 /\
    i = "bob@example.org".
Proof.
  destruct (User_save_new_lowercases lower_ascii users_save bob
              (User_save lower_ascii users_save bob []).1.2
              [] (User_save lower_ascii users_save bob []).2
              lower_ascii_idem eq_refl eq_refl)
    as (i & Hsave & _ & _ & Hmail).
  destruct (Hmail eq_refl) as (e & He & _ & Hi).
  exists i. split.
  - now rewrite <- Hsave.
  - inversion He; subst e. exact Hi.
Defined.

(** ** Event.get_plugins *)

Lemma split_on_nonempty (sep : ascii) (s : string) : split_on sep s <> [].
Proof.
  destruct s as [|c s]; simpl; [discriminate |].
  destruct (Ascii.eqb c sep); [discriminate |].
  destruct (split_on sep s); discriminate.
Qed.

Lemma concat_cons_char (sep : string) (c : ascii) (piece : string)
    (pieces : list string) :
  String.concat sep (String c piece :: pieces)
  = String c (String.concat sep (piece :: pieces)).
Proof. destruct pieces; reflexivity. Qed.

(** Joining the pieces with the separator gives the string back. *)
Lemma split_on_join (sep : ascii) (s : string) :
  String.concat (String sep EmptyString) (split_on sep s) = s.
Proof.
  induction s as [|c s IH]; simpl; [reflexivity |].
  destruct (Ascii.eqb c sep) eqn:Hc.
  - apply Ascii.eqb_eq in Hc. subst c.
    destruct (split_on sep s) as [|piece pieces] eqn:Hs.
    + now apply split_on_nonempty in Hs.
    + simpl in *. now rewrite IH.
  - destruct (split_on sep s) as [|piece pieces] eqn:Hs.
    + now apply split_on_nonempty in Hs.
    + rewrite concat_cons_char. now rewrite IH.
Qed.

(** No piece holds the separator. *)
Lemma split_on_pieces (sep : ascii) (s : string) :
  Forall (fun piece => has_char sep piece = false) (split_on sep s).
Proof.
  induction s as [|c s IH]; simpl.
  - constructor; [reflexivity | constructor].
  - destruct (Ascii.eqb c sep) eqn:Hc.
    + constructor; [reflexivity | assumption].
    + destruct (split_on sep s) as [|piece pieces].
      * constructor; [simpl; now rewrite Hc | constructor].
      * inversion IH as [| ? ? Hp Hps]; subst.
        constructor; [simpl; now rewrite Hc, Hp | assumption].
Qed.

Lemma split_on_no_sep (sep : ascii) (s : string) :
  has_char sep s = false -> split_on sep s = [s].
Proof.
  induction s as [|c s IH]; simpl; [reflexivity |].
  intros Hn. apply orb_false_iff in Hn as [Hc Hs].
  rewrite Hc, (IH Hs). reflexivity.
Qed.

Lemma split_on_append (sep : ascii) (piece rest : string) :
  has_char sep piece = false ->
  split_on sep (String.append piece (String sep rest)) = piece :: split_on sep rest.
Proof.
  induction piece as [|c piece IH]; simpl.
  - intros _. now rewrite Ascii.eqb_refl.
  - intros Hn. apply orb_false_iff in Hn as [Hc Hs].
    rewrite Hc, (IH Hs). reflexivity.
Qed.

(** Splitting the joined pieces gives the pieces back. *)
Lemma split_on_of_join (sep : ascii) (names : list string) :
  names <> [] ->
  Forall (fun name => has_char sep name = false) names ->
  split_on sep (String.concat (String sep EmptyString) names) = names.
Proof.
  induction names as [|name names IH]; [congruence |].
  intros _ Hall. inversion Hall as [| ? ? Hname Hnames]; subst.
  destruct names as [|name' names].
  - simpl. now apply split_on_no_sep.
  - change (String.concat (String sep EmptyString) (name :: name' :: names))
      with (String.append name
              (String sep (String.concat (String sep EmptyString) (name' :: names)))).
    rewrite split_on_append by assumption.
    now rewrite IH.
Qed.

(** X7: the plugins of an event are the pieces of the column between the
    commas: joined with commas they give the column back, none holds a
    comma, and the list is empty only for a column that is [None]; the
    empty string gives one plugin with the empty name. *)
Theorem Event_get_plugins_pieces (self : Event) :
  (Event_get_plugins self = [] <-> Event_plugins (fields self) = None) /\
  (forall plugins, Event_plugins (fields self) = Some plugins ->
     comma_join (Event_get_plugins self) = plugins /\
     Forall (fun name => has_char ","%char name = false) (Event_get_plugins self)) /\
  (Event_plugins (fields self) = Some "" -> Event_get_plugins self = [""]).
Proof.
  unfold Event_get_plugins, comma_join.
  destruct (Event_plugins (fields self)) as [p|]; repeat split;
    try discriminate; try reflexivity.
  - intros He. now apply split_on_nonempty in He.
  - inversion H; subst. apply (split_on_join ","%char).
  - inversion H; subst. apply split_on_pieces.
  - intros Hp. inversion Hp; subst. reflexivity.
Qed.

(** X8: an event whose column is the comma-joined list of at least one
    name, none with a comma in it, has exactly these plugins, in that
    order. *)
Theorem Event_get_plugins_of_join (self : Event) (names : list string) :
  names <> [] ->
  Forall (fun name => has_char ","%char name = false) names ->
  Event_plugins (fields self) = Some (comma_join names) ->
  Event_get_plugins self = names.
Proof.
  intros Hne Hall Hp. unfold Event_get_plugins. rewrite Hp.
  now apply split_on_of_join.
Qed.

Lemma Event_get_plugins_of_join_witness :
  Event_get_plugins (event_with_plugins (Some "banktransfer,paypal"))
  = ["banktransfer"; "paypal"].
Proof.
  apply (Event_get_plugins_of_join
           (event_with_plugins (Some "banktransfer,paypal"))
           ["banktransfer"; "paypal"]).
  - discriminate.
  - repeat constructor.
  - reflexivity.
Defined.

(** ** Migration 0079 *)

(** X9: [set_full_invoice_no] gives every invoice the full number made of
    its own prefix and number, keeps the rows in place with all their other
    columns, and running it again changes nothing. *)
Theorem set_full_invoice_no_rows {A : Type} (rows : list (Invoice A)) :
  length (set_full_invoice_no rows) = length rows /\
  (forall (i : nat) r, rows !! i = Some r ->
     set_full_invoice_no rows !! i
     = Some (mkInvoice (Invoice_prefix r) (Invoice_invoice_no r)
                       (String.append (Invoice_prefix r) (Invoice_invoice_no r))
                       (Invoice_rest r))) /\
  (forall r, r ∈ set_full_invoice_no rows ->
     Invoice_full_invoice_no r
     = String.append (Invoice_prefix r) (Invoice_invoice_no r)) /\
  set_full_invoice_no (set_full_invoice_no rows) = set_full_invoice_no rows.
Proof.
  unfold set_full_invoice_no. repeat split.
  - apply length_map.
  - intros i r Hr. change (map ?f rows) with (f <$> rows).
    now rewrite list_lookup_fmap, Hr.
  - intros r Hr. apply list_elem_of_In, in_map_iff in Hr as (r0 & <- & _).
    reflexivity.
  - rewrite map_map. reflexivity.
Qed.

(** ** The combinations and the bindings in general *)

Lemma product_In {A : Type} (ls : list (list A)) (c : list A) :
  In c (product ls) <-> Forall2 (fun x l => In x l) c ls.
Proof.
  revert c. induction ls as [|l ls IH]; intros c; simpl.
  - split.
    + intros [<- | []]. constructor.
    + intros Hc. inversion Hc. now left.
  - rewrite in_flat_map. split.
    + intros (x & Hx & Hc). apply in_map_iff in Hc as (c' & <- & Hc').
      constructor; [assumption | now apply IH].
    + intros Hc. inversion Hc as [| x l' c' ls' Hx Hc']; subst.
      exists x. split; [assumption |]. apply in_map_iff. exists c'.
      split; [reflexivity | now apply IH].
Qed.

(** X10: the combinations [get_all_variations] goes through are exactly
    the ways of picking, for each property of the item in order, one of the
    values of that property. *)
Theorem combinations_all_choices (w : World) (self : Item) (c : list PropertyValue) :
  In c (combinations w self) <->
  Forall2 (fun v p => In v (Property_values_all w p)) c (Item_properties_all self).
Proof.
  unfold combinations. rewrite product_In.
  change (map (Property_values_all w) (Item_properties_all self))
    with (Property_values_all w <$> Item_properties_all self).
  now rewrite Forall2_fmap_r.
Qed.

Lemma product_count {A : Type} (ls : list (list A)) :
  length (product ls) = fold_right (fun l n => (length l * n)%nat) 1%nat ls.
Proof.
  induction ls as [|l ls IH]; simpl; [reflexivity |].
  rewrite <- IH. clear IH. induction l as [|x l IHl]; simpl; [reflexivity |].
  now rewrite length_app, length_map, IHl.
Qed.

(** X11: a computed result has as many bindings as the product of the
    numbers of values of the item's properties; an item one of whose
    properties has no value has no binding at all. *)
Theorem variations_count (w : World) (self : ItemInstance) (use_cache : bool) :
  use_cache = false \/ _get_all_variations_cache self = None ->
  length (get_all_variations w self use_cache).1
  = fold_right (fun p n => (length (Property_values_all w p) * n)%nat) 1%nat
               (Item_properties_all (row self)) /\
  ((exists p, In p (Item_properties_all (row self)) /\ Property_values_all w p = []) ->
   (get_all_variations w self use_cache).1 = []).
Proof.
  intros Hfresh. rewrite (get_all_variations_fresh _ _ _ Hfresh). cbn [fst].
  rewrite compute_all_variations_map, length_map. unfold combinations.
  rewrite product_count.
  assert (Hlen : forall ps : list Property,
             fold_right (fun l n => (length l * n)%nat) 1%nat
                        (map (Property_values_all w) ps)
             = fold_right (fun p n => (length (Property_values_all w p) * n)%nat)
                          1%nat ps).
  { induction ps as [|p ps IH]; simpl; [reflexivity | now rewrite IH]. }
  split; [apply Hlen |].
  intros (p & Hin & Hnil).
  apply length_zero_iff_nil. rewrite length_map, product_count, Hlen.
  induction (Item_properties_all (row self)) as [|q ps IH]; [destruct Hin |].
  simpl. destruct Hin as [-> | Hin].
  - now rewrite Hnil.
  - rewrite (IH Hin). lia.
Qed.

Lemma variations_count_witness :
  length (get_all_variations shirt_world (mkItemInstance shirt None) false).1 = 4%nat.
Proof.
  exact (proj1 (variations_count shirt_world (mkItemInstance shirt None) false
                  (or_introl eq_refl))).
Defined.

Lemma comb_fold_lookup_other (comb : list PropertyValue) (k0 : list (string * string))
    (d0 : VariationDict) (k : string) :
  ~ In k (map (fun v => identity (prop (fields v))) comb) ->
  (fold_left (fun '(key, var) v =>
                (key ++ [(identity (prop (fields v)), identity v)],
                 <[identity (prop (fields v)) := DValue v]> var))
             comb (k0, d0)).2 !! k = d0 !! k.
Proof.
  revert k0 d0. induction comb as [|v comb IH]; intros k0 d0 Hn; simpl; [reflexivity |].
  simpl in Hn. rewrite IH by tauto. apply lookup_insert_ne. tauto.
Qed.

Lemma comb_fold_lookup_in (comb : list PropertyValue) (k0 : list (string * string))
    (d0 : VariationDict) (v : PropertyValue) :
  List.NoDup (map (fun v => identity (prop (fields v))) comb) ->
  In v comb ->
  (fold_left (fun '(key, var) v =>
                (key ++ [(identity (prop (fields v)), identity v)],
                 <[identity (prop (fields v)) := DValue v]> var))
             comb (k0, d0)).2 !! identity (prop (fields v)) = Some (DValue v).
Proof.
  revert k0 d0. induction comb as [|v0 comb IH]; intros k0 d0 Hnd Hin; [destruct Hin |].
  simpl in *. inversion Hnd as [| ? ? Hnotin Hnd']; subst.
  destruct Hin as [-> | Hin].
  - rewrite comb_fold_lookup_other by assumption. apply lookup_insert_eq.
  - now apply IH.
Qed.

(** X12: in a computed result, the binding built from a combination whose
    values belong to pairwise different properties, none with the identity
    ['variation'], holds every value of the combination under the identity
    of its property, and has no key besides these and ['variation']. *)
Theorem binding_assigns_each_property (w : World) (self : ItemInstance)
    (use_cache : bool) (i : nat) (comb : list PropertyValue) (d : VariationDict) :
  use_cache = false \/ _get_all_variations_cache self = None ->
  combinations w (row self) !! i = Some comb ->
  (get_all_variations w self use_cache).1 !! i = Some d ->
  List.NoDup (map (fun v => identity (prop (fields v))) comb) ->
  ~ In "variation" (map (fun v => identity (prop (fields v))) comb) ->
  (forall v, In v comb -> d !! identity (prop (fields v)) = Some (DValue v)) /\
  (forall k, is_Some (d !! k) ->
             k = "variation" \/ In k (map (fun v => identity (prop (fields v))) comb)).
Proof.
  intros Hfresh Hcomb Hd Hnd Hnv.
  rewrite (get_all_variations_fresh _ _ _ Hfresh) in Hd. cbn [fst] in Hd.
  rewrite compute_all_variations_map, list_lookup_fmap, Hcomb in Hd.
  simpl in Hd. inversion Hd as [Hd']. clear Hd.
  unfold binding. destruct comb as [|v0 comb'] eqn:Hc.
  { simpl. split; [intros v [] |]. intros k [x Hx].
    rewrite lookup_empty in Hx. discriminate. }
  rewrite <- Hc in *. assert (Hlen : (length comb =? 0)%nat = false) by now subst.
  rewrite Hlen. unfold comb_pairs.
  set (step := fun '(key, var) v =>
                 (key ++ [(identity (prop (fields v)), identity v)],
                  <[identity (prop (fields v)) := DValue v]> var)).
  destruct (fold_left step comb ([], ∅)) as [key var] eqn:Hfold.
  assert (Hin : forall v, In v comb ->
                  var !! identity (prop (fields v)) = Some (DValue v)).
  { intros v Hv. pose proof (comb_fold_lookup_in comb [] ∅ v Hnd Hv) as Hl.
    fold step in Hl. now rewrite Hfold in Hl. }
  assert (Hdom : forall k, is_Some (var !! k) ->
                   In k (map (fun v => identity (prop (fields v))) comb)).
  { intros k [x Hx].
    destruct (in_dec string_dec k (map (fun v => identity (prop (fields v))) comb))
      as [Hk | Hk]; [assumption |].
    pose proof (comb_fold_lookup_other comb [] ∅ k Hk) as Hl.
    fold step in Hl. rewrite Hfold in Hl. simpl in Hl.
    rewrite lookup_empty in Hl. congruence. }
  destruct (build_variations_cache _ !! sorted key) as [o|]; split.
  - intros v Hv. rewrite lookup_insert_ne; [now apply Hin |].
    intros Heq. apply Hnv. rewrite Heq. apply in_map_iff. eauto.
  - intros k Hk. destruct (decide ("variation" = k)) as [<- | Hne]; [now left |].
    rewrite lookup_insert_ne in Hk by assumption. right. now apply Hdom.
  - assumption.
  - intros k Hk. right. now apply Hdom.
Qed.

Lemma binding_assigns_each_property_witness :
  let d := binding (build_variations_cache (Item_variations_all shirt_world shirt))
                   [val_b; val_y] in
  d !! "prop-1" = Some (DValue val_b) /\ d !! "prop-2" = Some (DValue val_y).
Proof.
  cbv zeta.
  destruct (binding_assigns_each_property shirt_world (mkItemInstance shirt None) false
              3 [val_b; val_y] _ (or_introl eq_refl) eq_refl eq_refl) as [Hin _].
  - repeat constructor; simpl; intuition discriminate.
  - simpl. intuition discriminate.
  - split.
    + apply (Hin val_b). now left.
    + apply (Hin val_y). right. now left.
Defined.

(** ** Several variations under one key *)

Lemma cache_fold_keeps (vars : list ItemVariation)
    (c0 : gmap (list (string * string)) ItemVariation) (k : list (string * string)) :
  (forall var, In var vars -> variation_key var <> k) ->
  fold_left (fun variations_cache var =>
               <[variation_key var := var]> variations_cache) vars c0 !! k = c0 !! k.
Proof.
  revert c0. induction vars as [|var vars IH]; intros c0 Hne; simpl; [reflexivity |].
  rewrite IH by (intros var' Hin; apply Hne; now right).
  apply lookup_insert_ne. apply Hne. now left.
Qed.

(** Of the variations indexed under one key the last one is kept. *)
Lemma variations_cache_last (l1 l2 : list ItemVariation) (var : ItemVariation) :
  (forall var', In var' l2 -> variation_key var' <> variation_key var) ->
  build_variations_cache (l1 ++ var :: l2) !! variation_key var = Some var.
Proof.
  intros Hne. unfold build_variations_cache. rewrite fold_left_app. simpl.
  rewrite cache_fold_keeps by assumption. apply lookup_insert_eq.
Qed.

(** X13: when several variations of the item have the key of a
    combination, the binding carries the one the query returns last. *)
Theorem last_variation_wins (w : World) (self : ItemInstance) (use_cache : bool)
    (l1 l2 : list ItemVariation) (var : ItemVariation)
    (i : nat) (comb : list PropertyValue) (d : VariationDict) :
  use_cache = false \/ _get_all_variations_cache self = None ->
  Item_variations_all w (row self) = l1 ++ var :: l2 ->
  (forall var', In var' l2 -> variation_key var' <> variation_key var) ->
  combinations w (row self) !! i = Some comb ->
  comb <> [] ->
  variation_key var = signature comb ->
  (get_all_variations w self use_cache).1 !! i = Some d ->
  override d = Some var.
Proof.
  intros Hfresh Hvars Hlast Hcomb Hne Hkey Hd.
  rewrite (get_all_variations_fresh _ _ _ Hfresh) in Hd. cbn [fst] in Hd.
  rewrite compute_all_variations_map, list_lookup_fmap, Hcomb in Hd.
  simpl in Hd. inversion Hd as [Hd']. clear Hd.
  rewrite binding_override.
  destruct comb as [|v comb]; [congruence |]. cbn [length Nat.eqb].
  rewrite Hvars, <- Hkey. now apply variations_cache_last.
Qed.

(** Two overrides for (b, x): the later row is the one attached. *)
Lemma last_variation_wins_witness :
  override (binding (build_variations_cache
                       (Item_variations_all shirt_world_two shirt))
                    [val_b; val_x])
  = Some var_bx_late.
Proof.
  apply (last_variation_wins shirt_world_two (mkItemInstance shirt None) false
           [var_bx] [] var_bx_late 2 [val_b; val_x] _
           (or_introl eq_refl) eq_refl).
  - intros var' [].
  - reflexivity.
  - discriminate.
  - reflexivity.
  - reflexivity.
Defined.

(** ** The cached list *)

(** X14: whatever the arguments, after a call of [get_all_variations] the
    object's attribute holds the list the call returned and its columns are
    untouched, so that a later call with [use_cache=True] returns that same
    list on any rows. *)
Theorem get_all_variations_sets_cache (w : World) (self : ItemInstance)
    (use_cache : bool) :
  let r := get_all_variations w self use_cache in
  _get_all_variations_cache r.2 = Some r.1 /\
  row r.2 = row self /\
  (forall w2, get_all_variations w2 r.2 true = r).
Proof.
  cbv zeta.
  assert (Hcases :
            (exists cached, _get_all_variations_cache self = Some cached /\
                            get_all_variations w self use_cache = (cached, self)) \/
            get_all_variations w self use_cache
            = (compute_all_variations w (row self),
               mkItemInstance (row self) (Some (compute_all_variations w (row self))))).
  { destruct use_cache.
    - destruct (_get_all_variations_cache self) as [cached|] eqn:Hc.
      + left. exists cached. split; [reflexivity |].
        now apply get_all_variations_cached.
      + right. apply get_all_variations_fresh. now right.
    - right. apply get_all_variations_fresh. now left. }
  destruct Hcases as [(cached & Hc & ->) | ->]; cbn [fst snd].
  - split; [assumption |]. split; [reflexivity |].
    intros w2. now apply get_all_variations_cached.
  - split; [reflexivity |]. split; [reflexivity |].
    intros w2. now apply get_all_variations_cached.
Qed.

(** ** Saving a variation, deleting an item *)


Lemma upsert_new (x : Instance) (rows : list Instance) :
  existsb (same_row x) rows = false -> upsert x rows = rows ++ [x].
Proof. intros Hex. unfold upsert. now rewrite Hex. Qed.




Lemma omap_upsert_item {B : Type} (f : Instance -> option B) (x : Item)
    (rows : list Instance) :
  (forall it, f (IItem it) = None) ->
  omap f (upsert (IItem x) rows) = omap f rows.
Proof.
  intros Hf. unfold upsert. destruct (existsb (same_row (IItem x)) rows).
  - induction rows as [|y rows IH]; [reflexivity |].
    cbn [map omap list_omap]. rewrite <- IH.
    destruct y; cbn [same_row]; try reflexivity.
    destruct (pk_eqb (id x) (id o)); [| reflexivity]. now rewrite !Hf.
  - rewrite omap_app. simpl. rewrite Hf. apply app_nil_r.
Qed.

(** X16: [Item.delete] changes nothing in what [get_all_variations]
    computes: with Django's [save], the deleted item has the bindings and
    overrides it had before. *)
Theorem Item_delete_keeps_variations (self : ItemInstance) (w : World) :
  let r := @Item_delete django_backend self w in
  (get_all_variations r.2 r.1 false).1 = (get_all_variations w self false).1.
Proof.
  cbv zeta. rewrite !get_all_variations_fresh by now left. cbn [fst].
  unfold compute_all_variations, Item_delete, Item_variations_all,
    Item_properties_all, Property_values_all.
  cbn [fst snd row objects Versionable_save get_cache_clear instance_truth
       db_save django_backend set_deleted_inactive identity fields Item_properties].
  rewrite omap_upsert_item by reflexivity.
  f_equal. f_equal. apply map_ext. intros p.
  now rewrite omap_upsert_item by reflexivity.
Qed.

(** X17: after [PropertyValue.save] of a value whose primary key no row
    has, with Django's [save], the property it names has this value besides
    the ones it had, again by ascending position; every other property has
    the values it had. *)
Theorem saved_value_is_listed (v : PropertyValue) (w : World) (p : Property) :
  existsb (same_row (IPropertyValue v)) (objects w) = false ->
  let w' := @PropertyValue_save django_backend v w in
  Sorted position_le (Property_values_all w' p) /\
  (prop_id (fields v) = identity p ->
   Property_values_all w' p ≡ₚ v :: Property_values_all w p) /\
  (prop_id (fields v) <> identity p ->
   Property_values_all w' p = Property_values_all w p).
Proof.
  intros Hnew. cbv zeta. split; [apply by_position_sorted |].
  unfold Property_values_all.
  cbn [PropertyValue_save Versionable_save get_cache_clear objects instance_truth
       db_save django_backend].
  rewrite (upsert_new _ _ Hnew), omap_app. cbn [omap list_omap].
  split.
  - intros Hid. rewrite Hid, String.eqb_refl. unfold by_position.
    rewrite !merge_sort_Permutation.
    now rewrite <- Permutation_cons_append.
  - intros Hid. apply String.eqb_neq in Hid. rewrite Hid. now rewrite app_nil_r.
Qed.

(** A value "L" at position 2 is saved for the first property. *)
Lemma saved_value_is_listed_witness :
  let v := mkPropertyValue "value-c" P1 "L" 2 in
  Property_values_all (@PropertyValue_save django_backend v shirt_world) P1
  ≡ₚ v :: Property_values_all shirt_world P1.
Proof.
  cbv zeta.
  destruct (saved_value_is_listed (mkPropertyValue "value-c" P1 "L" 2) shirt_world P1
              eq_refl) as (_ & Hadd & _).
  now apply Hadd.
Defined.

(** ** Cloning again, cloning an item *)

Section CloneAgain.

Context {A S : Type}.
Variable save : Versionable A -> S -> S.

Lemma clone_shallow_Return_inv (utc_now : Z) (uuid4 : string)
    (self later : Versionable A) (forced_version_date : option Z) (st : S) :
  outcome (clone_shallow save utc_now uuid4 self forced_version_date st) = Return later ->
  pk_truth (id self) = true /\ version_end_date self = None /\
  clone_shallow save utc_now uuid4 self forced_version_date st
  = clone_at save uuid4 self (clone_date utc_now forced_version_date) st.
Proof.
  unfold clone_shallow, clone_date.
  destruct (pk_truth (id self)); [| discriminate]. simpl.
  destruct (version_end_date self) as [e|]; [discriminate |]. simpl.
  destruct forced_version_date as [d|]; [| now intros _].
  destruct (negb ((version_start_date self <=? d) && (d <=? utc_now)));
    [discriminate | now intros _].
Qed.

(** X18: after a clone, the object the call was made on is historical and
    every further clone of it raises; the returned object can be cloned
    again without a forced date at any reading of the clock, and then the
    second historical row begins where the first one ends, under the same
    identity, and the new head keeps the identity, the primary key and the
    fields of the original. *)
Theorem clone_shallow_again (now1 : Z) (uuid1 : string)
    (self later : Versionable A) (forced1 : option Z) (st : S) :
  let r1 := clone_shallow save now1 uuid1 self forced1 st in
  outcome r1 = Return later ->
  (forall now2 uuid2 forced2 st2,
     raised (outcome (clone_shallow save now2 uuid2 (self_after r1) forced2 st2))
     = true) /\
  (forall now2 uuid2 st2,
     let r2 := clone_shallow save now2 uuid2 later None st2 in
     exists later2,
       outcome r2 = Return later2 /\
       identity later2 = identity self /\ id later2 = id self /\
       fields later2 = fields self /\
       version_start_date later2 = now2 /\ version_end_date later2 = None /\
       identity (self_after r2) = identity self /\
       id (self_after r2) = Some uuid2 /\
       Some (version_start_date (self_after r2)) = version_end_date (self_after r1) /\
       version_end_date (self_after r2) = Some now2).
Proof.
  cbv zeta. intros Hret.
  destruct (clone_shallow_Return_inv _ _ _ _ _ _ Hret) as (Hpk & Hend & Heq).
  rewrite Heq in Hret |- *. unfold clone_at in Hret. simpl in Hret.
  inversion Hret as [Hlater]. clear Hret. split.
  - intros now2 uuid2 forced2 st2. unfold clone_shallow.
    destruct (negb (pk_truth _)); reflexivity.
  - intros now2 uuid2 st2. unfold clone_shallow, clone_at, set_interval, set_id.
    simpl. rewrite Hpk. simpl. eexists. repeat split.
Qed.

End CloneAgain.

(** The shirt is cloned at date 5 and its new head again at date 9. *)
Lemma clone_shallow_again_witness :
  let save := fun (v : Item) (l : list Item) => l ++ [v] in
  let r1 := clone_shallow save 10 "uuid-2" shirt (Some 5) [] in
  raised (outcome (clone_shallow save 11 "uuid-3" (self_after r1) None [])) = true.
Proof.
  cbv zeta.
  exact (proj1 (clone_shallow_again (fun (v : Item) (l : list Item) => l ++ [v])
                  10 "uuid-2" shirt
                  (mkVersionable (Some "item-shirt") "item-shirt" 5 None 0 (fields shirt))
                  (Some 5) [] eq_refl)
           11 "uuid-3" None []).
Defined.

Lemma pk_eqb_ne (a b : option string) : a <> b -> pk_eqb a b = false.
Proof.
  destruct a as [x|], b as [y|]; simpl; try reflexivity.
  intros Hne. apply String.eqb_neq. congruence.
Qed.

Lemma upsert_replace (x old : Instance) (l1 l2 : list Instance) :
  same_row x old = true ->
  Forall (fun y => same_row x y = false) l1 ->
  Forall (fun y => same_row x y = false) l2 ->
  upsert x (l1 ++ old :: l2) = l1 ++ x :: l2.
Proof.
  intros Hold H1 H2. unfold upsert.
  assert (Hex : existsb (same_row x) (l1 ++ old :: l2) = true).
  { apply existsb_exists. exists old. split; [| assumption].
    apply in_or_app. right. now left. }
  rewrite Hex, map_app. cbn [map]. rewrite Hold.
  assert (Hid : forall l, Forall (fun y => same_row x y = false) l ->
                  map (fun y => if same_row x y then x else y) l = l).
  { intros l Hl. induction Hl as [|y l Hy _ IH]; [reflexivity |].
    cbn [map]. now rewrite Hy, IH. }
  now rewrite (Hid l1 H1), (Hid l2 H2).
Qed.

Lemma same_row_item_false (x : Item) (y : Instance) :
  (forall it, y = IItem it -> id it <> id x) -> same_row (IItem x) y = false.
Proof.
  intros Hy. destruct y; cbn [same_row]; try reflexivity.
  apply pk_eqb_ne. intros Heq. now apply (Hy o eq_refl).
Qed.

(** X19: an item cloned through [Item.save] with Django's [save], in a
    table where its row is the only one with its primary key and no item
    has the new UUID: the new head takes the place of the old row under the
    original key, the historical row is added at the end under the UUID,
    every other row stays as it is, and the event's cache was cleared after
    each of the two saves. *)
Theorem clone_item_rows (utc_now : Z) (uuid4 : string) (self old later : Item)
    (forced_version_date : option Z) (w : World) (l1 l2 : list Instance) :
  let save := fun v w => @Item_save django_backend (mkItemInstance v None) w in
  let r := clone_shallow save utc_now uuid4 self forced_version_date w in
  objects w = l1 ++ IItem old :: l2 ->
  id old = id self ->
  (forall it, In (IItem it) (l1 ++ l2) -> id it <> id self) ->
  (forall it, In (IItem it) (objects w) -> id it <> Some uuid4) ->
  outcome r = Return later ->
  objects (state_after r) = l1 ++ IItem later :: l2 ++ [IItem (self_after r)] /\
  effects (state_after r)
  = effects w ++ [Saved (IItem (self_after r)); Cleared (Item_event (fields self));
                  Saved (IItem later); Cleared (Item_event (fields self))].
Proof.
  cbv zeta. intros Hobj Hold Huniq Hfresh Hret.
  destruct (clone_shallow_Return_inv _ _ _ _ _ _ _ Hret) as (Hpk & Hend & Heq).
  rewrite Heq in Hret |- *. unfold clone_at in Hret |- *.
  cbn [outcome self_after state_after] in Hret |- *.
  inversion Hret as [Hlater]. clear Hret.
  set (at_ := clone_date utc_now forced_version_date) in *.
  set (earlier := set_interval (set_id self (Some uuid4))
                    (version_start_date (set_id self (Some uuid4))) (Some at_)).
  set (head := set_interval self at_ None).
  assert (Hk : exists k, id self = Some k).
  { destruct (id self) as [k|]; [eauto | discriminate]. }
  destruct Hk as [k Hk].
  unfold Item_save, Versionable_save, get_cache_clear.
  cbn [instance_truth objects effects row db_save django_backend fields].
  split.
  - rewrite (upsert_new (IItem earlier) (objects w)).
    2:{ apply not_true_is_false. intros Hex.
        apply existsb_exists in Hex as (y & Hy & Hsame).
        destruct y; cbn [same_row] in Hsame; try discriminate.
        apply (Hfresh o Hy). unfold earlier in Hsame. cbn in Hsame.
        destruct (id o) as [k'|]; [| discriminate].
        apply String.eqb_eq in Hsame. now subst. }
    rewrite Hobj, <- app_assoc. cbn [app].
    apply upsert_replace.
    + cbn. rewrite Hold, Hk. cbn. apply String.eqb_refl.
    + apply Forall_forall. intros y Hy. apply list_elem_of_In in Hy.
      apply same_row_item_false.
      intros it ->. apply Huniq. apply in_or_app. now left.
    + apply Forall_forall. intros y Hy. apply list_elem_of_In in Hy.
      apply in_app_or in Hy as [Hy | [<- | []]].
      * apply same_row_item_false. intros it ->. apply Huniq.
        apply in_or_app. now right.
      * apply same_row_item_false. intros it Hit. inversion Hit; subst it.
        cbn. rewrite Hk. intros Heq'. inversion Heq'; subst k.
        apply (Hfresh old); [| congruence].
        rewrite Hobj. apply in_or_app. right. now left.
  - rewrite <- !app_assoc. reflexivity.
Qed.

(** The shirt cloned in the world of the shirt: its row is the sixth. *)
Lemma clone_item_rows_witness :
  let save := fun v w => @Item_save django_backend (mkItemInstance v None) w in
  let r := clone_shallow save 10 "uuid-2" shirt None shirt_world in
  length (objects (state_after r)) = 7%nat /\
  last (objects (state_after r)) = Some (IItem (self_after r)).
Proof.
  cbv zeta.
  destruct (clone_item_rows 10 "uuid-2" shirt shirt
              (mkVersionable (Some "item-shirt") "item-shirt" 10 None 0 (fields shirt))
              None shirt_world
              [IPropertyValue val_y; IPropertyValue val_b; IItemVariation var_bx;
               IPropertyValue val_x; IPropertyValue val_a] []
              eq_refl eq_refl) as [Hrows _].
  - intros it Hin. cbn in Hin.
    repeat (destruct Hin as [Hin | Hin]; [discriminate |]). destruct Hin.
  - intros it Hin. cbn in Hin.
    repeat (destruct Hin as [Hin | Hin];
            [try discriminate; inversion Hin; subst; discriminate |]).
    destruct Hin.
  - reflexivity.
  - rewrite Hrows. split; reflexivity.
Defined.

(** ** The key of a variation *)

(** X20: the key a variation is indexed under does not depend on the order
    of its values: two variations have the same key exactly when they give
    the same pairs of property key and value identity, counted with
    multiplicity. *)
Theorem variation_key_order_free (var1 var2 : ItemVariation) :
  variation_key var1 = variation_key var2 <->
  map (fun v => (prop_id (fields v), identity v)) (ItemVariation_values (fields var1))
  ≡ₚ map (fun v => (prop_id (fields v), identity v))
         (ItemVariation_values (fields var2)).
Proof.
  rewrite !variation_key_pairs, sorted_canonical.
  unfold ItemVariation_values_all, by_position.
  change (map ?f ?l) with (f <$> l).
  now rewrite !merge_sort_Permutation.
Qed.
